(** * broadcast-event: a shallow embedding of src/broadcast-event.js

    The module under study is the IIFE of [src/src/broadcast-event.js]
    (lines 1-273): [broadcastEvent], [alreadyBroadcast], [sendEvent],
    [encrypt], [decrypt] and the ['message'] listener of the window.

    Modelling choices:
    - a JavaScript string is its list of UTF-16 code units ([list Z]);
    - JavaScript values are [val]; objects and arrays live in a heap
      [gmap loc hobj], so that the aliasing of the caller's objects is
      visible;
    - each window (context) is a record [ctx]: its heap, its [recentEvents]
      object, its [originId], its place in the frame tree, its clock, and the
      stream of dedup tokens that [stringHash(sender + ... + Math.random())]
      produces in it; the effects a call has (local dispatch, postMessage,
      console.log) are appended to a log;
    - a [postMessage] is an effect that carries the structured clone of the
      payload; the receiving window runs the ['message'] listener on it. *)

From Stdlib Require Import ZArith Lia Bool.
From stdpp Require Import base gmap list strings.

Open Scope Z_scope.
Set Warnings "-register-all".

(** ** JavaScript strings *)

Abbreviation jsstr := (list Z).

(** ASCII literal to UTF-16 code units. *)
Fixpoint s2u (s : string) : jsstr :=
  match s with
  | EmptyString => []
  | String c r => Z.of_nat (Ascii.nat_of_ascii c) :: s2u r
  end.

Fixpoint digits_of_pos (fuel : nat) (n : Z) (acc : jsstr) : jsstr :=
  match fuel with
  | O => acc
  | S f => if n <? 10 then (48 + n) :: acc
           else digits_of_pos f (n / 10) ((48 + n mod 10) :: acc)
  end.

(** [String(n)] for an integral number. *)
Definition Z_to_dec (n : Z) : jsstr :=
  if n <? 0 then 45 :: digits_of_pos 64 (- n) []
  else digits_of_pos 64 n [].

Fixpoint starts_with (p s : jsstr) : bool :=
  match p, s with
  | [], _ => true
  | c :: p', d :: s' => (c =? d) && starts_with p' s'
  | _ :: _, [] => false
  end.

(** [s.split(sep)] for a one-code-unit separator. *)
Fixpoint split_on (sep : Z) (s : jsstr) : list jsstr :=
  match s with
  | [] => [[]]
  | c :: r =>
      if c =? sep then [] :: split_on sep r
      else match split_on sep r with
           | [] => [[c]]
           | w :: ws => (c :: w) :: ws
           end
  end.

(** ** Values *)

Abbreviation loc := nat.

Inductive val :=
  | VUndef
  | VNull
  | VBool (b : bool)
  | VNum (n : Z)
  | VStr (s : jsstr)
  | VRef (l : loc).

#[global] Instance val_eq_dec : EqDecision val.
Proof. solve_decision. Defined.

(** JavaScript truthiness ([!!v]); numbers are integral in this model. *)
Definition truthy (v : val) : bool :=
  match v with
  | VUndef | VNull => false
  | VBool b => b
  | VNum n => negb (n =? 0)
  | VStr s => negb (bool_decide (s = []))
  | VRef _ => true
  end.

(** [a || b] *)
Definition js_or (a b : val) : val := if truthy a then a else b.

(** Strict equality [===]: objects by identity, primitives by value. *)
Definition strict_eq (a b : val) : bool := bool_decide (a = b).

(** Outcome of JavaScript code that may throw. *)
Inductive res (A : Type) :=
  | Ok (a : A)
  | Throw (msg : jsstr).
Arguments Ok {A} a.
Arguments Throw {A} msg.

(** ** [btoa] and [atob] (the forgiving-base64 algorithms of the web
    platform), which [encrypt] and [decrypt] call *)

Definition b64_char (n : Z) : Z :=
  if n <? 26 then 65 + n
  else if n <? 52 then 97 + (n - 26)
  else if n <? 62 then 48 + (n - 52)
  else if n =? 62 then 43 else 47.

Definition b64_index (c : Z) : option Z :=
  if (65 <=? c) && (c <=? 90) then Some (c - 65)
  else if (97 <=? c) && (c <=? 122) then Some (c - 71)
  else if (48 <=? c) && (c <=? 57) then Some (c + 4)
  else if c =? 43 then Some 62
  else if c =? 47 then Some 63
  else None.

Fixpoint b64_encode (l : list Z) : list Z :=
  match l with
  | x :: y :: z :: r =>
      b64_char (x / 4) :: b64_char ((x mod 4) * 16 + y / 16)
        :: b64_char ((y mod 16) * 4 + z / 64) :: b64_char (z mod 64)
        :: b64_encode r
  | [x; y] =>
      [b64_char (x / 4); b64_char ((x mod 4) * 16 + y / 16);
       b64_char ((y mod 16) * 4); 61]
  | [x] => [b64_char (x / 4); b64_char ((x mod 4) * 16); 61; 61]
  | [] => []
  end.

(** [btoa] throws an InvalidCharacterError on a code unit above 255. *)
Definition btoa (s : jsstr) : option jsstr :=
  if forallb (fun c => c <=? 255) s then Some (b64_encode s) else None.

Definition is_ascii_ws (c : Z) : bool :=
  (c =? 9) || (c =? 10) || (c =? 12) || (c =? 13) || (c =? 32).

Definition strip_padding (s : jsstr) : jsstr :=
  if Nat.eqb (length s mod 4) 0 then
    match rev s with
    | 61 :: 61 :: r => rev r
    | 61 :: r => rev r
    | _ => s
    end
  else s.

Fixpoint all_some {A} (l : list (option A)) : option (list A) :=
  match l with
  | [] => Some []
  | None :: _ => None
  | Some x :: r => match all_some r with Some r' => Some (x :: r') | None => None end
  end.

Fixpoint b64_decode (l : list Z) : list Z :=
  match l with
  | a :: b :: c :: d :: r =>
      (a * 4 + b / 16) :: ((b mod 16) * 16 + c / 4) :: ((c mod 4) * 64 + d)
        :: b64_decode r
  | [a; b; c] => [a * 4 + b / 16; (b mod 16) * 16 + c / 4]
  | [a; b] => [a * 4 + b / 16]
  | _ => []
  end.

(** [atob] returns [None] where it throws an InvalidCharacterError. *)
Definition atob (s : jsstr) : option jsstr :=
  let d := strip_padding (List.filter (fun c => negb (is_ascii_ws c)) s) in
  if Nat.eqb (length d mod 4) 1 then None
  else match all_some (map b64_index d) with
       | Some sx => Some (b64_decode sx)
       | None => None
       end.

(** ** [encrypt] and [decrypt] (lines 190-221) *)

Definition key_char (key : jsstr) (i : nat) : Z :=
  nth (i mod length key) key 0.

(** [input.charCodeAt(i) ^ keyChar ^ (i % 256)] for every position. *)
Fixpoint xor_mix (key : jsstr) (i : nat) (s : jsstr) : jsstr :=
  match s with
  | [] => []
  | c :: r =>
      Z.lxor (Z.lxor c (key_char key i)) (Z.of_nat (i mod 256))
        :: xor_mix key (S i) r
  end.

Definition err_enc_key := s2u "Encryption key is required".
Definition err_dec_key := s2u "Decryption key is required".
Definition err_not_fun := s2u "TypeError: key.charCodeAt is not a function".
Definition err_btoa := s2u "InvalidCharacterError: btoa".
Definition err_atob := s2u "InvalidCharacterError: atob".

Definition encrypt (input : jsstr) (key : val) : res jsstr :=
  if negb (truthy key) then Throw err_enc_key
  else match input, key with
       | [], _ => Ok []
       | _, VStr k =>
           match btoa (xor_mix k 0 input) with
           | Some o => Ok o
           | None => Throw err_btoa
           end
       | _, _ => Throw err_not_fun
       end.

(** [decrypt] receives the string [atob] is applied to (its argument after
    [ToString]). *)
Definition decrypt (input : jsstr) (key : val) : res jsstr :=
  if negb (truthy key) then Throw err_dec_key
  else match atob input with
       | None => Throw err_atob
       | Some [] => Ok []
       | Some d =>
           match key with
           | VStr k => Ok (xor_mix k 0 d)
           | _ => Throw err_not_fun
           end
       end.

(** ** The heap of a window *)

(** An object: its own properties in insertion order and, for an array,
    its elements. *)
Record hobj := mkobj { props : list (jsstr * val); elems : option (list val) }.

Abbreviation heap := (gmap loc hobj).

Fixpoint assoc (k : jsstr) (ps : list (jsstr * val)) : option val :=
  match ps with
  | [] => None
  | (k', v) :: r => if bool_decide (k = k') then Some v else assoc k r
  end.

(** [o[k] = v] on own properties: an existing key keeps its position. *)
Fixpoint assoc_set (k : jsstr) (v : val) (ps : list (jsstr * val)) : list (jsstr * val) :=
  match ps with
  | [] => [(k, v)]
  | (k', v') :: r =>
      if bool_decide (k = k') then (k', v) :: r else (k', v') :: assoc_set k v r
  end.

(** Properties every plain object inherits from [Object.prototype]. *)
Definition object_proto_names : list jsstr :=
  map s2u ["constructor"; "__defineGetter__"; "__defineSetter__";
           "hasOwnProperty"; "__lookupGetter__"; "__lookupSetter__";
           "isPrototypeOf"; "propertyIsEnumerable"; "toString"; "valueOf";
           "__proto__"; "toLocaleString"]%string.

Definition in_object_proto (k : jsstr) : bool :=
  bool_decide (k ∈ object_proto_names).

(** [v[k]] for an object [v]: own property, then the array [length], then
    [Object.prototype].  An inherited member (a function) is represented by
    [VBool true]: the code under study only tests it for truthiness or
    compares it with [undefined].  Own properties are kept in insertion
    order (JavaScript lists integer-like keys first; no key of this module
    is one). *)
Definition get_prop (h : heap) (v : val) (k : jsstr) : val :=
  match v with
  | VRef l =>
      match h !! l with
      | Some o =>
          match assoc k (props o) with
          | Some x => x
          | None =>
              match elems o with
              | Some es =>
                  if bool_decide (k = s2u "length") then VNum (Z.of_nat (length es))
                  else if in_object_proto k then VBool true else VUndef
              | None => if in_object_proto k then VBool true else VUndef
              end
          end
      | None => VUndef
      end
  | _ => VUndef
  end.

(** [typeof v === 'object'] for a truthy [v]. *)
Definition is_object (v : val) : bool :=
  match v with VRef _ => true | _ => false end.

Definition is_string (v : val) : bool :=
  match v with VStr _ => true | _ => false end.

Fixpoint join (sep : jsstr) (l : list jsstr) : jsstr :=
  match l with
  | [] => []
  | [x] => x
  | x :: r => x ++ sep ++ join sep r
  end.

(** [String(v)]; an array is joined with commas. *)
Fixpoint to_str (fuel : nat) (h : heap) (v : val) : jsstr :=
  match v with
  | VUndef => s2u "undefined"
  | VNull => s2u "null"
  | VBool true => s2u "true"
  | VBool false => s2u "false"
  | VNum n => Z_to_dec n
  | VStr s => s
  | VRef l =>
      match h !! l, fuel with
      | Some (mkobj _ (Some es)), S f =>
          join (s2u ",")
            (map (fun e => match e with VUndef | VNull => [] | _ => to_str f h e end) es)
      | Some (mkobj _ (Some _)), O => []
      | _, _ => s2u "[object Object]"
      end
  end.

Definition str_of (h : heap) (v : val) : jsstr := to_str (S (map_size h)) h v.

(** ** [JSON.stringify] *)

Definition hex_digit (n : Z) : Z := if n <? 10 then 48 + n else 87 + n.

Definition u_escape (c : Z) : jsstr :=
  [92; 117; hex_digit (c / 4096); hex_digit ((c / 256) mod 16);
   hex_digit ((c / 16) mod 16); hex_digit (c mod 16)].

Definition is_high (c : Z) : bool := (55296 <=? c) && (c <=? 56319).
Definition is_low (c : Z) : bool := (56320 <=? c) && (c <=? 57343).

Definition escape_unit (c : Z) : jsstr :=
  if c =? 34 then [92; 34]
  else if c =? 92 then [92; 92]
  else if c =? 8 then [92; 98]
  else if c =? 12 then [92; 102]
  else if c =? 10 then [92; 110]
  else if c =? 13 then [92; 114]
  else if c =? 9 then [92; 116]
  else if c <? 32 then u_escape c
  else if is_high c || is_low c then u_escape c
  else [c].

(** QuoteJSONString: a surrogate pair is copied, a lone surrogate escaped. *)
Fixpoint quote_units (s : jsstr) : jsstr :=
  match s with
  | [] => []
  | c :: r =>
      if is_high c then
        match r with
        | d :: r' => if is_low d then c :: d :: quote_units r'
                     else escape_unit c ++ quote_units r
        | [] => escape_unit c
        end
      else escape_unit c ++ quote_units r
  end.

Definition quote (s : jsstr) : jsstr := [34] ++ quote_units s ++ [34].

Definition err_cyclic := s2u "TypeError: Converting circular structure to JSON".

(** [JSON.stringify(v)]: [Ok None] where the result is [undefined].  The
    fuel bounds the nesting depth; an acyclic heap never exhausts
    [S (map_size h)], and running out stands for the TypeError a cyclic
    structure raises. *)
Fixpoint stringify (fuel : nat) (h : heap) (v : val) : res (option jsstr) :=
  match v with
  | VUndef => Ok None
  | VNull => Ok (Some (s2u "null"))
  | VBool true => Ok (Some (s2u "true"))
  | VBool false => Ok (Some (s2u "false"))
  | VNum n => Ok (Some (Z_to_dec n))
  | VStr s => Ok (Some (quote s))
  | VRef l =>
      match fuel, h !! l with
      | O, _ => Throw err_cyclic
      | S f, Some (mkobj ps None) =>
          let fix members (ps : list (jsstr * val)) : res (list jsstr) :=
            match ps with
            | [] => Ok []
            | (k, x) :: r =>
                match stringify f h x, members r with
                | Throw e, _ => Throw e
                | _, Throw e => Throw e
                | Ok None, Ok ms => Ok ms
                | Ok (Some s), Ok ms => Ok ((quote k ++ [58] ++ s) :: ms)
                end
            end in
          match members ps with
          | Ok ms => Ok (Some ([123] ++ join [44] ms ++ [125]))
          | Throw e => Throw e
          end
      | S f, Some (mkobj _ (Some es)) =>
          let fix items (es : list val) : res (list jsstr) :=
            match es with
            | [] => Ok []
            | x :: r =>
                match stringify f h x, items r with
                | Throw e, _ => Throw e
                | _, Throw e => Throw e
                | Ok None, Ok ms => Ok (s2u "null" :: ms)
                | Ok (Some s), Ok ms => Ok (s :: ms)
                end
            end in
          match items es with
          | Ok ms => Ok (Some ([91] ++ join [44] ms ++ [93]))
          | Throw e => Throw e
          end
      | S _, None => Ok None
      end
  end.

Definition json_stringify (h : heap) (v : val) : res (option jsstr) :=
  stringify (S (map_size h)) h v.

(** ** Structured clone (what [postMessage] carries) *)

Inductive wval :=
  | WUndef
  | WNull
  | WBool (b : bool)
  | WNum (n : Z)
  | WStr (s : jsstr)
  | WObj (ps : list (jsstr * wval))
  | WArr (es : list wval).

(** The serialization half of the structured clone; the fuel bounds the
    depth as in [stringify] (cyclic graphs are not modelled). *)
Fixpoint clone (fuel : nat) (h : heap) (v : val) : option wval :=
  match v with
  | VUndef => Some WUndef
  | VNull => Some WNull
  | VBool b => Some (WBool b)
  | VNum n => Some (WNum n)
  | VStr s => Some (WStr s)
  | VRef l =>
      match fuel, h !! l with
      | S f, Some (mkobj ps None) =>
          let fix members (ps : list (jsstr * val)) : option (list (jsstr * wval)) :=
            match ps with
            | [] => Some []
            | (k, x) :: r =>
                match clone f h x, members r with
                | Some w, Some ws => Some ((k, w) :: ws)
                | _, _ => None
                end
            end in
          match members ps with Some ws => Some (WObj ws) | None => None end
      | S f, Some (mkobj _ (Some es)) =>
          let fix items (es : list val) : option (list wval) :=
            match es with
            | [] => Some []
            | x :: r =>
                match clone f h x, items r with
                | Some w, Some ws => Some (w :: ws)
                | _, _ => None
                end
            end in
          match items es with Some ws => Some (WArr ws) | None => None end
      | _, _ => None
      end
  end.

Definition snapshot (h : heap) (v : val) : option wval := clone (S (map_size h)) h v.

(** The deserialization half: fresh objects in the receiving window's heap,
    allocated from [n] upwards. *)
Fixpoint materialize (w : wval) (h : heap) (n : loc) : val * heap * loc :=
  match w with
  | WUndef => (VUndef, h, n)
  | WNull => (VNull, h, n)
  | WBool b => (VBool b, h, n)
  | WNum z => (VNum z, h, n)
  | WStr s => (VStr s, h, n)
  | WObj ps =>
      let fix members (ps : list (jsstr * wval)) h n :=
        match ps with
        | [] => ([], h, n)
        | (k, x) :: r =>
            let '(v, h1, n1) := materialize x h n in
            let '(vs, h2, n2) := members r h1 n1 in
            ((k, v) :: vs, h2, n2)
        end in
      let '(vs, h', n') := members ps h (S n) in
      (VRef n, <[n := mkobj vs None]> h', n')
  | WArr es =>
      let fix items (es : list wval) h n :=
        match es with
        | [] => ([], h, n)
        | x :: r =>
            let '(v, h1, n1) := materialize x h n in
            let '(vs, h2, n2) := items r h1 n1 in
            (v :: vs, h2, n2)
        end in
      let '(vs, h', n') := items es h (S n) in
      (VRef n, <[n := mkobj [] (Some vs)]> h', n')
  end.

Fixpoint wget (k : jsstr) (ps : list (jsstr * wval)) : option wval :=
  match ps with
  | [] => None
  | (k', w) :: r => if bool_decide (k = k') then Some w else wget k r
  end.

(** ** A window *)

(** The fixed part of a window: its identity in the frame tree
    ([window], [window.parent], [window.frames]; the top window is its own
    parent), its [sender] ([location.href]) and [originId], and the dedup
    tokens [stringHash(sender + ':' + type + ':' + performance.now() + ':'
    + Math.random())] it mints, the [n]-th (for an event of type [type])
    being [token type n]. *)
Record window_cfg := mkcfg {
  self : nat;
  parent : nat;
  frames : list nat;
  sender : jsstr;
  originId : jsstr;
  token : jsstr -> nat -> jsstr
}.

(** Observable effects. *)
Inductive effect :=
  | Dispatch (name : jsstr) (detail : val) (seen : option wval)
      (** [window.dispatchEvent(new CustomEvent(name, { detail }))];
          [seen] is the detail as the listeners see it at that moment *)
  | Post (target : nat) (type : jsstr) (detail eventIds : val) (msg : wval)
      (** [target.postMessage({ _broadcast: payload }, '*')]: the payload's
          type, detail and eventIds fields, and the clone [msg] sent *)
  | Log (args : list jsstr)
      (** [console.log('broadcast-event[' + sender + ']', ...args)] *).

Record ctx := mkctx {
  cfg : window_cfg;
  mem : heap;
  next_loc : loc;
  recentEvents : gmap jsstr Z;  (** own properties of [recentEvents] *)
  clock : Z;                    (** [Date.now()] *)
  draws : nat;                  (** tokens minted so far *)
  effects : list effect
}.

Definition set_mem (c : ctx) (h : heap) (n : loc) : ctx :=
  mkctx (cfg c) h n (recentEvents c) (clock c) (draws c) (effects c).
Definition set_recent (c : ctx) (r : gmap jsstr Z) : ctx :=
  mkctx (cfg c) (mem c) (next_loc c) r (clock c) (draws c) (effects c).
Definition set_draws (c : ctx) (d : nat) : ctx :=
  mkctx (cfg c) (mem c) (next_loc c) (recentEvents c) (clock c) d (effects c).
Definition add_effect (c : ctx) (e : effect) : ctx :=
  mkctx (cfg c) (mem c) (next_loc c) (recentEvents c) (clock c) (draws c) (effects c ++ [e]).

(** ** The state-and-exception monad of a window's code *)

Definition M (A : Type) := ctx -> res A * ctx.

Definition ret {A} (a : A) : M A := fun c => (Ok a, c).
Definition throw {A} (e : jsstr) : M A := fun c => (Throw e, c).
Definition bind {A B} (m : M A) (k : A -> M B) : M B :=
  fun c => match m c with
           | (Ok a, c') => k a c'
           | (Throw e, c') => (Throw e, c')
           end.

Notation "x <- m ;; k" := (bind m (fun x => k))
  (at level 100, m at next level, right associativity).
Notation "m ;; k" := (bind m (fun _ => k))
  (at level 100, right associativity).

Definition get_ctx : M ctx := fun c => (Ok c, c).
Definition emit (e : effect) : M unit := fun c => (Ok tt, add_effect c e).

Definition log (args : list jsstr) : M unit := emit (Log args).

Definition alloc (o : hobj) : M val :=
  fun c => (Ok (VRef (next_loc c)),
            set_mem c (<[next_loc c := o]> (mem c)) (S (next_loc c))).

Definition err_set_prim := s2u "TypeError: Cannot create property on primitive".

(** [v[k] = x] in strict mode. *)
Definition set_prop (v : val) (k : jsstr) (x : val) : M unit :=
  fun c =>
    match v with
    | VRef l =>
        match mem c !! l with
        | Some o => (Ok tt, set_mem c (<[l := mkobj (assoc_set k x (props o)) (elems o)]> (mem c)) (next_loc c))
        | None => (Ok tt, c)
        end
    | _ => (Throw err_set_prim, c)
    end.

Definition get (v : val) (k : string) : M val :=
  fun c => (Ok (get_prop (mem c) v (s2u k)), c).

Definition receive (w : wval) : M val :=
  fun c => let '(v, h, n) := materialize w (mem c) (next_loc c) in
           (Ok v, set_mem c h n).

(** ** [alreadyBroadcast] (lines 99-129) *)

Definition expiry : Z := 30000.

(** [Object.keys(recentEvents).forEach(...)]: drop entries older than
    [now - 30000]. *)
Definition purge (now : Z) (r : gmap jsstr Z) : gmap jsstr Z :=
  filter (fun kt : jsstr * Z => ~ (kt.2 < now - expiry)) r.

(** [recentEvents[id] !== undefined]: an own key, or a member inherited
    from [Object.prototype]. *)
Definition cache_has (r : gmap jsstr Z) (k : jsstr) : bool :=
  match r !! k with
  | Some _ => true
  | None => in_object_proto k
  end.

(** [recentEvents[eventId] = now]; assigning a number to [__proto__] does
    nothing. *)
Definition cache_put (k : jsstr) (now : Z) (r : gmap jsstr Z) : gmap jsstr Z :=
  if bool_decide (k = s2u "__proto__") then r else <[k := now]> r.

Definition err_some := s2u "TypeError: payload.eventIds.some is not a function".

Definition alreadyBroadcast (type : jsstr) (eventIds : val) : M bool :=
  fun c =>
    let now := clock c in
    let r := purge now (recentEvents c) in
    let c1 := set_recent c r in
    match eventIds with
    | VRef l =>
        match mem c1 !! l with
        | Some (mkobj ps (Some ids)) =>
            if existsb (fun id => cache_has r (str_of (mem c1) id)) ids
            then (Ok true, c1)
            else
              let eventId := token (cfg c) type (draws c) in
              let c2 := set_draws c1 (S (draws c)) in
              let c3 := set_mem c2 (<[l := mkobj ps (Some (ids ++ [VStr eventId]))]> (mem c2))
                                (next_loc c2) in
              (Ok false, set_recent c3 (cache_put eventId now r))
        | _ => (Throw err_some, c1)
        end
    | _ => (Throw err_some, c1)
    end.

(** ** [sendEvent] (lines 157-168) *)

(** [{ _broadcast: payload }] as the receiver gets it. *)
Definition envelope (type : jsstr) (wd wi : wval) (debug : bool) : wval :=
  WObj [(s2u "_broadcast",
         WObj [(s2u "type", WStr type); (s2u "detail", wd);
               (s2u "eventIds", wi); (s2u "debug", WBool debug)])].

Definition sendEvent (target : nat) (type : jsstr) (detail eventIds : val) (debug : bool) : M unit :=
  fun c =>
    if Nat.eqb target (self (cfg c)) then (Ok tt, c)
    else match snapshot (mem c) detail, snapshot (mem c) eventIds with
         | Some wd, Some wi =>
             (Ok tt, add_effect c (Post target type detail eventIds (envelope type wd wi debug)))
         | _, _ => (Ok tt, c)  (* DataCloneError, caught and ignored *)
         end.

(** ** [broadcastEvent] (lines 31-92) *)

Definition dispatch (name : jsstr) (detail : val) : M unit :=
  fun c => (Ok tt, add_effect c (Dispatch name detail (snapshot (mem c) detail))).

Definition quoted (pre : string) (name : jsstr) (post : jsstr) : jsstr :=
  s2u pre ++ [34] ++ name ++ [34] ++ post.

Definition err_undefined := s2u "TypeError: Cannot read properties of undefined".

(** [payload.detail = 'BE:' + encrypt(JSON.stringify(eventData), eventData._originId)
    + ':' + eventData._originId] *)
Definition encrypted_detail (eventData : val) : M val :=
  fun c =>
    match json_stringify (mem c) eventData with
    | Throw e => (Throw e, c)
    | Ok None => (Throw err_undefined, c)
    | Ok (Some s) =>
        let key := get_prop (mem c) eventData (s2u "_originId") in
        match encrypt s key with
        | Ok ct => (Ok (VStr (s2u "BE:" ++ ct ++ s2u ":" ++ str_of (mem c) key)), c)
        | Throw e => (Throw e, c)
        end
    end.

Fixpoint mfor (l : list nat) (k : nat -> M unit) : M unit :=
  match l with
  | [] => ret tt
  | x :: r => k x ;; mfor r k
  end.

Definition relay (name : jsstr) (detail eventIds : val) (debug : bool) : M unit :=
  c <- get_ctx ;;
  (if negb (Nat.eqb (parent (cfg c)) (self (cfg c))) then
     sendEvent (parent (cfg c)) name detail eventIds debug ;;
     (if debug then log [quoted "sending " name (s2u " up")] else ret tt)
   else ret tt) ;;
  mfor (frames (cfg c)) (fun f =>
    sendEvent f name detail eventIds debug ;;
    (if debug then log [quoted "sending " name (s2u " down")] else ret tt)).

Definition err_not_object := s2u "eventData must be an object".

Definition broadcastEvent (eventName eventData options : val) : M unit :=
  c <- get_ctx ;;
  if truthy eventData && negb (is_object eventData) then throw err_not_object else
  let name := if truthy eventName then str_of (mem c) eventName else [] in
  eventData <- (if truthy eventData then ret eventData else alloc (mkobj [] None)) ;;
  options <- (if truthy options then ret options else alloc (mkobj [] None)) ;;
  dbg <- get options "debug" ;;
  let debug := strict_eq dbg (VBool true) in
  set_prop options (s2u "debug") (VBool debug) ;;
  oid <- get eventData "_originId" ;;
  (if truthy oid then ret tt
   else set_prop eventData (s2u "_originId") (VStr (originId (cfg c)))) ;;
  tid <- get eventData "_targetId" ;;
  tgt <- get options "target" ;;
  set_prop eventData (s2u "_targetId") (js_or tid tgt) ;;
  ids <- get options "_eventIds" ;;
  eventIds <- (if truthy ids then ret ids else alloc (mkobj [] (Some []))) ;;
  suppressed <- alreadyBroadcast name eventIds ;;
  if suppressed then
    (if debug then log [quoted "suppressed " name []] else ret tt)
  else
    tid' <- get eventData "_targetId" ;;
    (if negb (truthy tid') || strict_eq tid' (VStr (originId (cfg c)))
     then dispatch name eventData else ret tt) ;;
    enc <- get options "encrypt" ;;
    detail <- (if truthy enc then encrypted_detail eventData else ret eventData) ;;
    relay name detail eventIds debug.

(** ** The ['message'] listener (lines 228-263)

    [JSON.parse] is a parameter: [json_parse s] is the parsed value, or
    [None] where [JSON.parse] throws a SyntaxError. *)

(** [detail.split(':')[i]] *)
Definition part (detail : jsstr) (i : nat) : val :=
  match split_on 58 detail !! i with Some s => VStr s | None => VUndef end.

Section Listener.

Variable json_parse : jsstr -> option wval.

Definition decrypt_detail (detail : jsstr) : M val :=
  let encryptedData := part detail 1 in
  let encryptionKey := part detail 2 in
  c <- get_ctx ;;
  match decrypt (str_of (mem c) encryptedData) encryptionKey with
  | Ok plain =>
      match json_parse plain with
      | Some w => receive w
      | None => log [s2u "Failed to decrypt event data"] ;; ret VNull
      end
  | Throw _ => log [s2u "Failed to decrypt event data"] ;; ret VNull
  end.

Definition onMessage (source : nat) (data : wval) : M unit :=
  c <- get_ctx ;;
  if Nat.eqb source (self (cfg c)) then ret tt else
  d <- receive data ;;
  b <- (if truthy d then get d "_broadcast" else ret d) ;;
  ty <- get b "type" ;;
  det <- get b "detail" ;;
  if truthy b && is_string ty && truthy det then
    dbg <- get b "debug" ;;
    (if truthy dbg then log [quoted "received " (str_of (mem c) ty) []] else ret tt) ;;
    (match det with
     | VStr s =>
         if starts_with (s2u "BE:") s
         then v <- decrypt_detail s ;; set_prop b (s2u "detail") v
         else ret tt
     | _ => ret tt
     end) ;;
    ids <- get b "eventIds" ;;
    dbg' <- get b "debug" ;;
    tgt <- get b "target" ;;
    opts <- alloc (mkobj [(s2u "_eventIds", ids); (s2u "debug", dbg'); (s2u "target", tgt)] None) ;;
    det' <- get b "detail" ;;
    broadcastEvent ty det' opts
  else ret tt.

End Listener.

(** ** Auxiliary definitions for the proofs *)

(** A string of code units [btoa] accepts. *)
Definition latin1 (s : jsstr) : Prop := Forall (fun c => 0 <= c <= 255) s.

(** The base-64 digits of [b64_encode], before padding. *)
Fixpoint sextets (l : list Z) : list Z :=
  match l with
  | x :: y :: z :: r =>
      x / 4 :: (x mod 4) * 16 + y / 16 :: (y mod 16) * 4 + z / 64 :: z mod 64 :: sextets r
  | [x; y] => [x / 4; (x mod 4) * 16 + y / 16; (y mod 16) * 4]
  | [x] => [x / 4; (x mod 4) * 16]
  | [] => []
  end.

Definition b64_pad (l : list Z) : list Z :=
  match (length l mod 3)%nat with
  | 1%nat => [61; 61]
  | 2%nat => [61]
  | _ => []
  end.

(** [v] is not a dangling reference. *)
Definition alive (h : heap) (v : val) : Prop :=
  match v with VRef l => is_Some (h !! l) | _ => True end.

(** No object is stored at or beyond the allocation pointer. *)
Definition wf (c : ctx) : Prop := forall l, (next_loc c <= l)%nat -> mem c !! l = None.

(** An own property of the object at [l]. *)
Definition own (h : heap) (l : loc) (k : jsstr) : option val :=
  match h !! l with Some o => assoc k (props o) | None => None end.

(** [h'] keeps every object of [h] with its own properties, and a plain
    object stays one; array elements may change and new objects may
    appear. *)
Definition props_kept (h h' : heap) : Prop :=
  forall l o, h !! l = Some o ->
    exists es, h' !! l = Some (mkobj (props o) es) /\ (elems o = None -> es = None).

(** A plain object of [h] is still a plain object in [h']. *)
Definition plain_kept (h h' : heap) : Prop :=
  forall l ps, h !! l = Some (mkobj ps None) -> exists ps', h' !! l = Some (mkobj ps' None).

(** A step of a window's code that has no effect, keeps the window's
    configuration and clock, keeps the own properties of every object and
    keeps the heap well formed. *)
Definition grows (c c' : ctx) : Prop :=
  cfg c' = cfg c /\ clock c' = clock c /\ effects c' = effects c /\
  props_kept (mem c) (mem c') /\ wf c'.

Definition add_effects (c : ctx) (es : list effect) : ctx :=
  mkctx (cfg c) (mem c) (next_loc c) (recentEvents c) (clock c) (draws c) (effects c ++ es).

(** The effects of [sendEvent] and of [relay] in a window [w] whose heap is
    [h]. *)
Definition send_effects (w : window_cfg) (h : heap) (target : nat) (type : jsstr)
    (detail eventIds : val) (debug : bool) : list effect :=
  if Nat.eqb target (self w) then []
  else match snapshot h detail, snapshot h eventIds with
       | Some wd, Some wi => [Post target type detail eventIds (envelope type wd wi debug)]
       | _, _ => []
       end.

Definition relay_effects (w : window_cfg) (h : heap) (name : jsstr) (detail eventIds : val)
    (debug : bool) : list effect :=
  (if negb (Nat.eqb (parent w) (self w)) then
     send_effects w h (parent w) name detail eventIds debug ++
     (if debug then [Log [quoted "sending " name (s2u " up")]] else [])
   else []) ++
  flat_map (fun f => send_effects w h f name detail eventIds debug ++
                     (if debug then [Log [quoted "sending " name (s2u " down")]] else []))
           (frames w).

(** Two states that differ at most in their heap. *)
Definition env_eq (c c' : ctx) : Prop :=
  cfg c' = cfg c /\ clock c' = clock c /\ effects c' = effects c /\
  draws c' = draws c /\ recentEvents c' = recentEvents c /\ next_loc c' = next_loc c.

(** The local firings among a list of effects, and the windows it posts
    to. *)
Definition is_dispatch (e : effect) : bool :=
  match e with Dispatch _ _ _ => true | _ => false end.

Definition dispatches (es : list effect) : nat := length (List.filter is_dispatch es).

Definition post_targets (es : list effect) : list nat :=
  flat_map (fun e => match e with Post t _ _ _ _ => [t] | _ => [] end) es.

(** The member and element loops of [clone] and [materialize] as functions
    of their own. *)
Definition clone_members (f : nat) (h : heap) : list (jsstr * val) -> option (list (jsstr * wval)) :=
  fix members (ps : list (jsstr * val)) : option (list (jsstr * wval)) :=
    match ps with
    | [] => Some []
    | (k, x) :: r =>
        match clone f h x, members r with
        | Some w, Some ws => Some ((k, w) :: ws)
        | _, _ => None
        end
    end.

Definition clone_items (f : nat) (h : heap) : list val -> option (list wval) :=
  fix items (es : list val) : option (list wval) :=
    match es with
    | [] => Some []
    | x :: r =>
        match clone f h x, items r with
        | Some w, Some ws => Some (w :: ws)
        | _, _ => None
        end
    end.

Fixpoint mat_members (ps : list (jsstr * wval)) (h : heap) (n : loc) : list (jsstr * val) * heap * loc :=
  match ps with
  | [] => ([], h, n)
  | (k, x) :: r =>
      let '(v, h1, n1) := materialize x h n in
      let '(vs, h2, n2) := mat_members r h1 n1 in
      ((k, v) :: vs, h2, n2)
  end.

Fixpoint mat_items (es : list wval) (h : heap) (n : loc) : list val * heap * loc :=
  match es with
  | [] => ([], h, n)
  | x :: r =>
      let '(v, h1, n1) := materialize x h n in
      let '(vs, h2, n2) := mat_items r h1 n1 in
      (v :: vs, h2, n2)
  end.

(** Weakest precondition of a computation for a postcondition on its
    outcome and final state. *)
Definition wp {A} (m : M A) (Q : res A -> ctx -> Prop) (c : ctx) : Prop :=
  Q (fst (m c)) (snd (m c)).

(** Nested induction on [wval]. *)

Section wval_ind'.
Variable P : wval -> Prop.
Hypothesis HUndef : P WUndef.
Hypothesis HNull : P WNull.
Hypothesis HBool : forall b, P (WBool b).
Hypothesis HNum : forall n, P (WNum n).
Hypothesis HStr : forall s, P (WStr s).
Hypothesis HObj : forall ps, Forall (fun p => P p.2) ps -> P (WObj ps).
Hypothesis HArr : forall es, Forall P es -> P (WArr es).

Fixpoint wval_ind' (w : wval) : P w :=
  match w with
  | WUndef => HUndef
  | WNull => HNull
  | WBool b => HBool b
  | WNum n => HNum n
  | WStr s => HStr s
  | WObj ps => HObj ps ((fix go (ps : list (jsstr * wval)) : Forall (fun p => P p.2) ps :=
                          match ps with
                          | [] => @List.Forall_nil _ _
                          | p :: r => @List.Forall_cons _ _ p r (wval_ind' p.2) (go r)
                          end) ps)
  | WArr es => HArr es ((fix go (es : list wval) : Forall P es :=
                          match es with
                          | [] => @List.Forall_nil _ _
                          | x :: r => @List.Forall_cons _ _ x r (wval_ind' x) (go r)
                          end) es)
  end.
End wval_ind'.

(** [h'] extends [h], which has nothing from [n] on, by objects in
    [n .. n'). *)
Definition fresh_from (h : heap) (n : loc) : Prop := forall l, (n <= l)%nat -> h !! l = None.

Definition extends (h : heap) (n : loc) (h' : heap) (n' : loc) : Prop :=
  (n <= n')%nat /\ forall l, (l < n)%nat \/ (n' <= l)%nat -> h' !! l = h !! l.

Definition mat_ok (w : wval) : Prop :=
  forall h n v h' n', fresh_from h n -> materialize w h n = (v, h', n') ->
    extends h n h' n' /\ exists f0, forall f, (f0 <= f)%nat -> clone f h' v = Some w.

(** ** Concrete windows, for the examples *)

Definition demo_cfg (me up : nat) (children : list nat) (oid : string) : window_cfg :=
  mkcfg me up children (s2u "https://example.test/") (s2u oid)
        (fun _ n => s2u "t" ++ Z_to_dec (Z.of_nat n)).

Fixpoint heap_from (n : loc) (objs : list hobj) : heap :=
  match objs with
  | [] => ∅
  | o :: r => <[n := o]> (heap_from (S n) r)
  end.

Definition demo_ctx (w : window_cfg) (objs : list hobj) : ctx :=
  mkctx w (heap_from 0 objs) (length objs) ∅ 0 0 [].

Definition obj (ps : list (string * val)) : hobj :=
  mkobj (map (fun kv => (s2u kv.1, kv.2)) ps) None.

Definition str (s : string) : val := VStr (s2u s).

(** [{ x: '€' }]: a payload with a code unit above 255. *)
Definition euro_data : hobj := mkobj [(s2u "x", VStr [8364])] None.

Definition root_win : window_cfg := demo_cfg 0 0 [1%nat] "root".
Definition mid_win : window_cfg := demo_cfg 1 0 [2%nat] "mid".



(** ** [stringHash] (lines 176-183) *)

(** [ToInt32] and [ToUint32] of an integral number. *)
Definition to_int32 (x : Z) : Z :=
  let m := x mod 2 ^ 32 in if m <? 2 ^ 31 then m else m - 2 ^ 32.

Definition to_uint32 (x : Z) : Z := x mod 2 ^ 32.

(** [a << k] *)
Definition shl32 (a k : Z) : Z := to_int32 (Z.shiftl (to_int32 a) k).

(** One turn of the loop: [hash ^= input.charCodeAt(i);
    hash += (hash << 1) + (hash << 4) + (hash << 7) + (hash << 8) + (hash << 24)].
    The sum of six 32-bit integers is exact in a double. *)
Definition hash_step (hash c : Z) : Z :=
  let h := Z.lxor (to_int32 hash) (to_int32 c) in
  h + ((((shl32 h 1 + shl32 h 4) + shl32 h 7) + shl32 h 8) + shl32 h 24).

(** The FNV-1a offset basis the loop starts from. *)
Definition fnv_offset : Z := 2166136261.

Definition digit36 (d : Z) : Z := if d <? 10 then 48 + d else 87 + d.

(** [n.toString(36)] for an integer [n >= 0]: digits [0-9a-z]. *)
Fixpoint radix36 (fuel : nat) (n : Z) (acc : jsstr) : jsstr :=
  match fuel with
  | O => acc
  | S f => if n <? 36 then digit36 n :: acc
           else radix36 f (n / 36) (digit36 (n mod 36) :: acc)
  end.

Definition to_base36 (n : Z) : jsstr := radix36 64 n [].

Definition stringHash (input : jsstr) : jsstr :=
  to_base36 (Z.abs (to_uint32 (fold_left hash_step input fnv_offset))).

(** A base-36 digit as [toString(36)] writes it. *)
Definition is_digit36 (c : Z) : bool :=
  ((48 <=? c) && (c <=? 57)) || ((97 <=? c) && (c <=? 122)).

(** [parseInt(s, 36)] for a string of base-36 digits. *)
Definition digit36_value (c : Z) : Z := if c <=? 57 then c - 48 else c - 87.

Definition of_base36 (s : jsstr) : Z :=
  fold_left (fun acc c => acc * 36 + digit36_value c) s 0.

(** A window whose dedup tokens are [stringHash] of the sender, the type
    and the draw counter, which stands for [performance.now()] and
    [Math.random()]. *)
Definition hash_win : window_cfg :=
  mkcfg 0 0 [1%nat] (s2u "https://example.test/") (s2u "root")
        (fun ty n => stringHash (s2u "https://example.test/" ++ [58] ++ ty ++ [58] ++ Z_to_dec (Z.of_nat n))).

(** ** Message handler: the envelope check (line 232) *)

(** Truthiness of a received (cloned) value, as [truthy] of the value it
    materializes to. *)

Definition wtruthy (w : wval) : bool :=
  match w with
  | WUndef | WNull => false
  | WBool b => b
  | WNum n => negb (n =? 0)
  | WStr s => negb (bool_decide (s = []))
  | WObj _ | WArr _ => true
  end.

(** Received data the check
    [_broadcast && typeof _broadcast.type === 'string' && _broadcast.detail]
    rejects. An array [_broadcast] is left out: the clone keeps only its
    elements. *)
Definition not_envelope (w : wval) : bool :=
  match w with
  | WObj ps =>
      match wget (s2u "_broadcast") ps with
      | None => true
      | Some (WObj qs) =>
          match wget (s2u "type") qs, wget (s2u "detail") qs with
          | Some (WStr _), Some d => negb (wtruthy d)
          | _, _ => true
          end
      | Some (WArr _) => false
      | Some _ => true
      end
  | _ => true
  end.

(** ** A receiving hop: the target test on the relayed detail (lines 48, 66-68, 254-260) *)

(** The test of line 66 at a window whose [originId] is [me], on the
    detail it received: no truthy [_targetId], or [_targetId] is [me]. *)
Definition hop_fires (me : jsstr) (dps : list (jsstr * wval)) : bool :=
  match wget (s2u "_targetId") dps with
  | None => true
  | Some w => negb (wtruthy w) || match w with WStr s => bool_decide (s = me) | _ => false end
  end.


(** ** Auxiliary notions of the proofs *)





(** * Properties *)

(** ** The cipher *)

Lemma xor_mix_involutive (k : jsstr) (s : jsstr) (i : nat) :
  xor_mix k i (xor_mix k i s) = s.
Proof.
  revert i; induction s as [|c r IH]; intros i; cbn [xor_mix]; [done|].
  rewrite IH. f_equal.
  set (a := key_char k i). set (b := Z.of_nat (i mod 256)).
  rewrite (Z.lxor_assoc (Z.lxor (Z.lxor c a) b) a b), (Z.lxor_assoc c a b),
    Z.lxor_assoc, Z.lxor_nilpotent, Z.lxor_0_r. done.
Qed.

Lemma log2_byte (x : Z) : 0 <= x <= 255 -> Z.log2 x < 8.
Proof.
  intros Hx. destruct (Z.eq_dec x 0) as [->|Hn]; [simpl; lia|].
  apply Z.log2_lt_pow2; [lia|]. simpl. lia.
Qed.

Lemma lxor_byte (a b : Z) : 0 <= a <= 255 -> 0 <= b <= 255 -> 0 <= Z.lxor a b <= 255.
Proof.
  intros Ha Hb. pose proof (Z.lxor_nonneg a b) as Hnn.
  destruct (Z.eq_dec (Z.lxor a b) 0) as [->|Hn]; [lia|].
  assert (Z.log2 (Z.lxor a b) < 8) as Hl.
  { eapply Z.le_lt_trans; [apply Z.log2_lxor; lia|].
    apply Z.max_lub_lt; apply log2_byte; lia. }
  apply Z.log2_lt_pow2 in Hl; [|lia]. simpl in Hl. lia.
Qed.

Lemma key_char_byte (k : jsstr) (i : nat) : latin1 k -> 0 <= key_char k i <= 255.
Proof.
  intros Hk. unfold key_char.
  destruct (decide (i mod length k < length k)%nat) as [Hlt|Hge].
  - apply (Forall_forall (fun c => 0 <= c <= 255) k); [done|].
    apply list_elem_of_In, nth_In. done.
  - rewrite nth_overflow; [lia|lia].
Qed.

Lemma xor_mix_latin1 (k s : jsstr) (i : nat) :
  latin1 k -> latin1 s -> latin1 (xor_mix k i s).
Proof.
  intros Hk Hs. revert i; induction Hs as [|c r Hc Hr IH]; intros i; cbn [xor_mix];
    [constructor|]. constructor; [|apply IH].
  apply lxor_byte; [apply lxor_byte; [done|apply key_char_byte; done]|].
  pose proof (Nat.mod_upper_bound i 256). lia.
Qed.

Lemma xor_mix_nil (k s : jsstr) (i : nat) : xor_mix k i s = [] <-> s = [].
Proof. destruct s; simpl; split; congruence. Qed.

(** *** base 64 *)

Lemma b64_encode_split (l : list Z) : b64_encode l = map b64_char (sextets l) ++ b64_pad l.
Proof.
  induction l as [l IH] using (induction_ltof1 _ (@length Z)).
  destruct l as [|x [|y [|z r]]]; try reflexivity.
  change (b64_encode (x :: y :: z :: r)) with
    (b64_char (x / 4) :: b64_char ((x mod 4) * 16 + y / 16)
       :: b64_char ((y mod 16) * 4 + z / 64) :: b64_char (z mod 64) :: b64_encode r).
  rewrite IH by (unfold ltof; simpl; lia).
  unfold b64_pad. simpl length.
  replace (S (S (S (length r)))) with (length r + 1 * 3)%nat by lia.
  rewrite Nat.Div0.mod_add. reflexivity.
Qed.

Lemma b64_char_index (n : Z) : 0 <= n < 64 -> b64_index (b64_char n) = Some n.
Proof.
  intros Hn. unfold b64_char, b64_index.
  repeat match goal with
  | |- context [if ?b then _ else _] =>
      lazymatch b with
      | context [if _ then _ else _] => fail
      | _ => destruct b eqn:?
      end
  end;
  repeat match goal with
  | H : (_ && _)%bool = _ |- _ => apply andb_prop in H as [? ?] || apply andb_false_iff in H as [?|?]
  | H : (_ <? _) = _ |- _ => apply Z.ltb_lt in H || apply Z.ltb_ge in H
  | H : (_ <=? _) = _ |- _ => apply Z.leb_le in H || apply Z.leb_gt in H
  | H : (_ =? _) = _ |- _ => apply Z.eqb_eq in H || apply Z.eqb_neq in H
  end; try (f_equal; lia); lia.
Qed.

Ltac zbool :=
  repeat match goal with
  | |- context [?a <? ?b] => destruct (Z.ltb_spec a b)
  | |- context [?a <=? ?b] => destruct (Z.leb_spec a b)
  | |- context [?a =? ?b] => destruct (Z.eqb_spec a b)
  end.

Lemma b64_char_safe (n : Z) :
  0 <= n < 64 -> b64_char n <> 61 /\ is_ascii_ws (b64_char n) = false.
Proof. intros Hn. unfold b64_char, is_ascii_ws. zbool; simpl; split; lia. Qed.

Lemma sextets_range (l : list Z) : latin1 l -> Forall (fun n => 0 <= n < 64) (sextets l).
Proof.
  induction l as [l IH] using (induction_ltof1 _ (@length Z)).
  intros Hl. destruct l as [|x [|y [|z r]]]; unfold latin1 in Hl;
    repeat match goal with H : Forall _ (_ :: _) |- _ => inversion H; subst; clear H end;
    cbn [sextets].
  - constructor.
  - repeat constructor; Z.to_euclidean_division_equations; nia.
  - repeat constructor; Z.to_euclidean_division_equations; nia.
  - repeat (constructor; [Z.to_euclidean_division_equations; nia|]).
    apply IH; [unfold ltof; simpl; lia|done].
Qed.

Lemma b64_decode_sextets (l : list Z) : latin1 l -> b64_decode (sextets l) = l.
Proof.
  induction l as [l IH] using (induction_ltof1 _ (@length Z)).
  intros Hl. destruct l as [|x [|y [|z r]]]; unfold latin1 in Hl;
    repeat match goal with H : Forall _ (_ :: _) |- _ => inversion H; subst; clear H end;
    cbn [sextets b64_decode].
  - done.
  - f_equal. Z.to_euclidean_division_equations; nia.
  - f_equal; [|f_equal]; Z.to_euclidean_division_equations; nia.
  - f_equal; [|f_equal; [|f_equal]]; try (Z.to_euclidean_division_equations; nia).
    apply IH; [unfold ltof; simpl; lia|done].
Qed.

Lemma b64_pad_cons3 (x y z : Z) (r : list Z) : b64_pad (x :: y :: z :: r) = b64_pad r.
Proof.
  unfold b64_pad. cbn [length].
  replace (S (S (S (length r)))) with (length r + 1 * 3)%nat by lia.
  rewrite Nat.Div0.mod_add. done.
Qed.

Lemma sextets_length (l : list Z) :
  ((length (sextets l) + length (b64_pad l)) mod 4 = 0)%nat /\
  (length (sextets l) mod 4 <> 1)%nat.
Proof.
  induction l as [l IH] using (induction_ltof1 _ (@length Z)).
  destruct l as [|x [|y [|z r]]]; try (simpl; lia).
  destruct (IH r) as [H1 H2]; [unfold ltof; simpl; lia|].
  rewrite b64_pad_cons3. cbn [sextets length].
  revert H1 H2. generalize (length (sextets r)) (length (b64_pad r)). intros a b H1 H2.
  replace (S (S (S (S a))) + b)%nat with ((a + b) + 1 * 4)%nat by lia.
  replace (S (S (S (S a))))%nat with (a + 1 * 4)%nat by lia.
  rewrite !Nat.Div0.mod_add. done.
Qed.

Lemma all_some_index (sx : list Z) :
  Forall (fun n => 0 <= n < 64) sx -> all_some (map b64_index (map b64_char sx)) = Some sx.
Proof.
  induction 1 as [|n r Hn Hr IH]; [done|].
  cbn [map all_some]. rewrite b64_char_index, IH; done.
Qed.

Lemma pad_match_other (c : Z) (r d : list Z) (f g : list Z -> list Z) :
  c <> 61 ->
  match c :: r with 61 :: 61 :: r' => f r' | 61 :: r' => g r' | _ => d end = d.
Proof.
  intros Hc. destruct c as [|p|p]; try reflexivity.
  do 6 (destruct p as [p|p|]; try reflexivity). exfalso; apply Hc; reflexivity.
Qed.

Lemma pad_match_one (c : Z) (r d : list Z) (g : list Z -> list Z) :
  c <> 61 -> match c :: r with 61 :: r' => g r' | _ => d end = d.
Proof.
  intros Hc. destruct c as [|p|p]; try reflexivity.
  do 6 (destruct p as [p|p|]; try reflexivity). exfalso; apply Hc; reflexivity.
Qed.

Lemma strip_padding_encoded (sx : list Z) (l : list Z) :
  Forall (fun n => 0 <= n < 64) sx ->
  ((length sx + length (b64_pad l)) mod 4 = 0)%nat ->
  strip_padding (map b64_char sx ++ b64_pad l) = map b64_char sx.
Proof.
  intros Hsx Hlen. unfold strip_padding. rewrite length_app, length_map, Hlen.
  cbn [Nat.eqb]. rewrite rev_app_distr.
  assert (Hlast : forall r, rev (map b64_char sx) <> 61 :: r).
  { intros r Heq.
    assert (61 ∈ map b64_char sx) as Hin.
    { rewrite <- elem_of_reverse. unfold reverse. rewrite rev_alt in Heq. rewrite Heq.
      constructor. }
    apply list_elem_of_In, in_map_iff in Hin as (n & Hn61 & Hn).
    eapply Forall_forall in Hsx; [|apply list_elem_of_In; done].
    destruct (b64_char_safe n Hsx). congruence. }
  unfold b64_pad.
  destruct (length l mod 3)%nat as [|[|[|k]]]; cbn [rev app].
  - rewrite app_nil_r. destruct (rev (map b64_char sx)) as [|c r] eqn:E; [done|].
    apply pad_match_other. intros ->. eapply Hlast. done.
  - rewrite rev_involutive. done.
  - rewrite rev_involutive. destruct (rev (map b64_char sx)) as [|c r] eqn:E; [done|].
    apply pad_match_one. intros ->. eapply Hlast. done.
  - rewrite app_nil_r. destruct (rev (map b64_char sx)) as [|c r] eqn:E; [done|].
    apply pad_match_other. intros ->. eapply Hlast. done.
Qed.

Lemma filter_id {A} (f : A -> bool) (l : list A) :
  Forall (fun x => f x = true) l -> List.filter f l = l.
Proof. induction 1 as [|x r Hx Hr IH]; simpl; [done|]. rewrite Hx, IH. done. Qed.

Lemma atob_b64_encode (l : list Z) : latin1 l -> atob (b64_encode l) = Some l.
Proof.
  intros Hl. pose proof (sextets_range l Hl) as Hsx.
  destruct (sextets_length l) as [Hlen1 Hlen2].
  unfold atob. rewrite b64_encode_split, filter_id.
  - rewrite strip_padding_encoded by done. rewrite length_map.
    apply Nat.eqb_neq in Hlen2. rewrite Hlen2.
    rewrite all_some_index by done. rewrite b64_decode_sextets by done. done.
  - apply Forall_app. split.
    + apply Forall_forall. intros c Hc.
      apply list_elem_of_In, in_map_iff in Hc as (n & <- & Hn).
      eapply Forall_forall in Hsx; [|apply list_elem_of_In; done].
      destruct (b64_char_safe n Hsx) as [_ ->]. done.
    + unfold b64_pad. destruct (length l mod 3)%nat as [|[|[|k]]]; repeat constructor.
Qed.

Lemma forallb_latin1 (s : jsstr) : latin1 s -> forallb (fun c => c <=? 255) s = true.
Proof. induction 1; simpl; [done|]. apply andb_true_intro. split; [apply Z.leb_le; lia|done]. Qed.

(** Extra for C7: for a Latin-1 string and a non-empty Latin-1 key,
    [encrypt] succeeds and [decrypt] inverts it. *)
Lemma encrypt_decrypt_latin1 (s k : jsstr) :
  k <> [] -> latin1 k -> latin1 s ->
  exists ct, encrypt s (VStr k) = Ok ct /\ decrypt ct (VStr k) = Ok s.
Proof.
  intros Hk Hkl Hs.
  assert (truthy (VStr k) = true) as Ht.
  { simpl. rewrite bool_decide_eq_false_2 by done. done. }
  destruct s as [|c r].
  - exists []. unfold encrypt, decrypt. rewrite Ht. done.
  - exists (b64_encode (xor_mix k 0 (c :: r))). unfold encrypt, decrypt. rewrite Ht.
    unfold btoa. rewrite forallb_latin1 by (apply xor_mix_latin1; done).
    split; [done|].
    rewrite atob_b64_encode by (apply xor_mix_latin1; done).
    destruct (xor_mix k 0 (c :: r)) as [|d ds] eqn:E; [apply xor_mix_nil in E; done|].
    rewrite <- E, xor_mix_involutive. done.
Qed.


(** ** A program logic for [M] *)

Lemma wp_bind {A B} (m : M A) (k : A -> M B) Q c :
  wp m (fun r c' => match r with Ok a => wp (k a) Q c' | Throw e => Q (Throw e) c' end) c ->
  wp (bind m k) Q c.
Proof. unfold wp, bind. destruct (m c) as [[a|e] c']; simpl; auto. Qed.

Lemma wp_ret {A} (a : A) Q c : Q (Ok a) c -> wp (ret a) Q c.
Proof. done. Qed.

Lemma wp_throw {A} e Q c : Q (Throw e) c -> wp (@throw A e) Q c.
Proof. done. Qed.

Lemma wp_get_ctx Q c : Q (Ok c) c -> wp get_ctx Q c.
Proof. done. Qed.

Lemma wp_get v k Q c : Q (Ok (get_prop (mem c) v (s2u k))) c -> wp (get v k) Q c.
Proof. done. Qed.

Lemma wp_emit e Q c : Q (Ok tt) (add_effect c e) -> wp (emit e) Q c.
Proof. done. Qed.

Lemma wp_log a Q c : Q (Ok tt) (add_effect c (Log a)) -> wp (log a) Q c.
Proof. done. Qed.

Lemma wp_dispatch n d Q c :
  Q (Ok tt) (add_effect c (Dispatch n d (snapshot (mem c) d))) -> wp (dispatch n d) Q c.
Proof. done. Qed.

Lemma wp_alloc o Q c :
  Q (Ok (VRef (next_loc c))) (set_mem c (<[next_loc c := o]> (mem c)) (S (next_loc c))) ->
  wp (alloc o) Q c.
Proof. done. Qed.

Lemma wp_set_prop l o k x Q c :
  mem c !! l = Some o ->
  Q (Ok tt) (set_mem c (<[l := mkobj (assoc_set k x (props o)) (elems o)]> (mem c)) (next_loc c)) ->
  wp (set_prop (VRef l) k x) Q c.
Proof. unfold wp, set_prop. intros ->. done. Qed.

Lemma wp_set_prop_prim v k x Q c :
  is_object v = false -> Q (Throw err_set_prim) c -> wp (set_prop v k x) Q c.
Proof. unfold wp, set_prop. destruct v; done. Qed.

Lemma wp_if {A} (b : bool) (m1 m2 : M A) Q c :
  (b = true -> wp m1 Q c) -> (b = false -> wp m2 Q c) -> wp (if b then m1 else m2) Q c.
Proof. destruct b; auto. Qed.

Lemma wp_mono {A} (m : M A) (Q Q' : res A -> ctx -> Prop) c :
  wp m Q c -> (forall r c', Q r c' -> Q' r c') -> wp m Q' c.
Proof. unfold wp. auto. Qed.

Lemma add_effect_app c e : add_effect c e = add_effects c [e].
Proof. done. Qed.

Lemma add_effects_app c es1 es2 : add_effects (add_effects c es1) es2 = add_effects c (es1 ++ es2).
Proof. unfold add_effects. simpl. rewrite app_assoc. done. Qed.

Lemma sendEvent_effects t n d i dbg c :
  sendEvent t n d i dbg c = (Ok tt, add_effects c (send_effects (cfg c) (mem c) t n d i dbg)).
Proof.
  unfold sendEvent, send_effects. destruct (Nat.eqb t (self (cfg c))).
  - unfold add_effects. rewrite app_nil_r. destruct c; done.
  - destruct (snapshot (mem c) d), (snapshot (mem c) i); try (unfold add_effects; rewrite app_nil_r; destruct c; done).
    done.
Qed.

Lemma bind_ok {A B} (m : M A) (k : A -> M B) c a c' :
  m c = (Ok a, c') -> bind m k c = k a c'.
Proof. unfold bind. intros ->. done. Qed.

Lemma bind_throw {A B} (m : M A) (k : A -> M B) c e c' :
  m c = (Throw e, c') -> bind m k c = (Throw e, c').
Proof. unfold bind. intros ->. done. Qed.

Lemma add_effects_nil c : add_effects c [] = c.
Proof. unfold add_effects. rewrite app_nil_r. destruct c; done. Qed.

Lemma log_effects a c : log a c = (Ok tt, add_effects c [Log a]).
Proof. done. Qed.

Lemma relay_run n d i dbg c :
  relay n d i dbg c = (Ok tt, add_effects c (relay_effects (cfg c) (mem c) n d i dbg)).
Proof.
  set (down := fun f => sendEvent f n d i dbg ;;
                        (if dbg then log [quoted "sending " n (s2u " down")] else ret tt)).
  assert (forall fs c0, cfg c0 = cfg c -> mem c0 = mem c ->
     mfor fs down c0
     = (Ok tt, add_effects c0 (flat_map (fun f => send_effects (cfg c) (mem c) f n d i dbg ++
                     (if dbg then [Log [quoted "sending " n (s2u " down")]] else [])) fs))) as Hfor.
  { induction fs as [|f fs IH]; intros c0 Hc Hm; cbn [mfor flat_map].
    - rewrite add_effects_nil. done.
    - unfold bind at 1. unfold down at 1. unfold bind at 1.
      rewrite sendEvent_effects, Hc, Hm. destruct dbg.
      + rewrite log_effects. rewrite IH by done. rewrite !add_effects_app. rewrite app_assoc. done.
      + cbn [ret]. rewrite IH by done. rewrite !add_effects_app. rewrite app_nil_r. done. }
  unfold relay. rewrite (bind_ok get_ctx _ c c c) by done.
  unfold relay_effects. destruct (negb (Nat.eqb (parent (cfg c)) (self (cfg c)))).
  - unfold bind at 1. unfold bind at 1. rewrite sendEvent_effects. destruct dbg.
    + rewrite log_effects. fold down. rewrite Hfor by done. rewrite !add_effects_app.
      rewrite <- !app_assoc. done.
    + cbn [ret]. fold down. rewrite Hfor by done. rewrite !add_effects_app. rewrite app_nil_r. done.
  - unfold bind at 1. cbn [ret]. fold down. rewrite Hfor by done. done.
Qed.

Lemma wp_relay n d i dbg Q c :
  Q (Ok tt) (add_effects c (relay_effects (cfg c) (mem c) n d i dbg)) -> wp (relay n d i dbg) Q c.
Proof. unfold wp. rewrite relay_run. done. Qed.

(** ** Heap lemmas *)

Lemma assoc_set_same k x ps : assoc k (assoc_set k x ps) = Some x.
Proof.
  induction ps as [|[k' v'] r IH]; simpl.
  - rewrite bool_decide_eq_true_2; done.
  - case_bool_decide as E; simpl.
    + rewrite bool_decide_eq_true_2; done.
    + rewrite bool_decide_eq_false_2; done.
Qed.

Lemma assoc_set_other k k' x ps : k <> k' -> assoc k' (assoc_set k x ps) = assoc k' ps.
Proof.
  intros Hne. induction ps as [|[k0 v0] r IH]; simpl.
  - rewrite bool_decide_eq_false_2; done.
  - case_bool_decide as E; simpl.
    + subst k0. rewrite !bool_decide_eq_false_2; done.
    + case_bool_decide; done.
Qed.

Lemma get_prop_nonref h v k : is_object v = false -> get_prop h v k = VUndef.
Proof. destruct v; done. Qed.

Lemma get_prop_set_same h l k x ps es :
  get_prop (<[l := mkobj (assoc_set k x ps) es]> h) (VRef l) k = x.
Proof. unfold get_prop. rewrite lookup_insert_eq. simpl. rewrite assoc_set_same. done. Qed.

Lemma get_prop_set_other h l o k k' x v :
  h !! l = Some o -> k <> k' ->
  get_prop (<[l := mkobj (assoc_set k x (props o)) (elems o)]> h) v k' = get_prop h v k'.
Proof.
  intros Hl Hk. destruct v as [| | | | |l']; try done. unfold get_prop.
  destruct (decide (l = l')) as [<-|Hne].
  - rewrite lookup_insert_eq, Hl. simpl. rewrite assoc_set_other by done. done.
  - rewrite lookup_insert_ne by done. done.
Qed.

Lemma own_set_same h l k x ps es : own (<[l := mkobj (assoc_set k x ps) es]> h) l k = Some x.
Proof. unfold own. rewrite lookup_insert_eq. simpl. apply assoc_set_same. Qed.

Lemma own_set_other h l o k k' x l' :
  h !! l = Some o -> k <> k' ->
  own (<[l := mkobj (assoc_set k x (props o)) (elems o)]> h) l' k' = own h l' k'.
Proof.
  intros Hl Hk. unfold own. destruct (decide (l = l')) as [<-|Hne].
  - rewrite lookup_insert_eq, Hl. simpl. apply assoc_set_other. done.
  - rewrite lookup_insert_ne by done. done.
Qed.

(** For a key that [Object.prototype] does not have and that is not an
    array's [length], [get_prop] reads the own property. *)
Lemma get_prop_own h l k :
  in_object_proto k = false -> k <> s2u "length" ->
  get_prop h (VRef l) k = default VUndef (own h l k).
Proof.
  intros Hp Hk. unfold get_prop, own. destruct (h !! l) as [[ps [es|]]|]; simpl; try done.
  - destruct (assoc k ps); simpl; [done|]. rewrite bool_decide_eq_false_2 by done. rewrite Hp. done.
  - destruct (assoc k ps); simpl; [done|]. rewrite Hp. done.
Qed.

Lemma props_kept_refl h : props_kept h h.
Proof. intros l [ps es] H. exists es. done. Qed.

Lemma props_kept_trans h1 h2 h3 : props_kept h1 h2 -> props_kept h2 h3 -> props_kept h1 h3.
Proof.
  intros H12 H23 l o H1. destruct (H12 l o H1) as [es2 [H2 N2]].
  destruct (H23 l _ H2) as [es3 [H3 N3]]. exists es3. split; [done|]. intros E. apply N3, N2, E.
Qed.

Lemma props_kept_alloc h l o : h !! l = None -> props_kept h (<[l := o]> h).
Proof.
  intros Hn l' o' H. exists (elems o'). rewrite lookup_insert_ne by congruence. destruct o'; done.
Qed.

Lemma props_kept_elems h l ps es es' :
  h !! l = Some (mkobj ps (Some es)) -> props_kept h (<[l := mkobj ps (Some es')]> h).
Proof.
  intros Hl l' o' H. destruct (decide (l = l')) as [<-|Hne].
  - rewrite Hl in H. injection H as <-. exists (Some es'). rewrite lookup_insert_eq. done.
  - exists (elems o'). rewrite lookup_insert_ne by done. destruct o'; done.
Qed.

Lemma get_prop_kept h h' v k :
  props_kept h h' -> alive h v -> k <> s2u "length" -> get_prop h' v k = get_prop h v k.
Proof.
  intros Hk Ha Hl. destruct v as [| | | | |l]; try done.
  destruct Ha as [o Ho]. destruct (Hk l o Ho) as [es [He _]].
  unfold get_prop. rewrite He, Ho. destruct o as [ps es0]. simpl.
  destruct (assoc k ps); [done|].
  destruct es as [es|], es0 as [es0|]; try (rewrite bool_decide_eq_false_2 by done); done.
Qed.

Lemma own_kept h h' l k : props_kept h h' -> is_Some (h !! l) -> own h' l k = own h l k.
Proof.
  intros Hk [o Ho]. destruct (Hk l o Ho) as [es [He _]]. unfold own. rewrite He, Ho. done.
Qed.

Lemma alive_kept h h' v : props_kept h h' -> alive h v -> alive h' v.
Proof.
  intros Hk Ha. destruct v as [| | | | |l]; try done.
  simpl in *. destruct Ha as [o Ho]. destruct (Hk l o Ho) as [es [He _]]. rewrite He. done.
Qed.

Lemma alive_insert h l o v : alive h v -> alive (<[l := o]> h) v.
Proof.
  destruct v as [| | | | |l']; try done. simpl. intros Ha.
  destruct (decide (l = l')) as [<-|Hne].
  - rewrite lookup_insert_eq. done.
  - rewrite lookup_insert_ne by done. done.
Qed.

Lemma alive_nonref h v : is_object v = false -> alive h v.
Proof. destruct v; done. Qed.

(** ** Steps that only grow the heap *)

Lemma grows_refl c : wf c -> grows c c.
Proof. intros H. repeat split; auto using props_kept_refl. Qed.

Lemma grows_trans c1 c2 c3 : grows c1 c2 -> grows c2 c3 -> grows c1 c3.
Proof.
  intros (A1 & B1 & C1 & D1 & E1) (A2 & B2 & C2 & D2 & E2).
  repeat split; try congruence; eauto using props_kept_trans.
Qed.

Lemma grows_alloc c o :
  wf c -> grows c (set_mem c (<[next_loc c := o]> (mem c)) (S (next_loc c))).
Proof.
  intros Hwf. unfold grows, wf, set_mem; cbn. repeat split.
  - apply props_kept_alloc. apply Hwf. lia.
  - intros l Hl. rewrite lookup_insert_ne by lia. apply Hwf. lia.
Qed.

Lemma wp_alloc_grows o Q c :
  wf c ->
  (forall c', grows c c' -> mem c' !! next_loc c = Some o -> mem c !! next_loc c = None ->
              Q (Ok (VRef (next_loc c))) c') ->
  wp (alloc o) Q c.
Proof.
  intros Hwf HQ. apply wp_alloc. apply HQ.
  - apply grows_alloc; done.
  - simpl. apply lookup_insert_eq.
  - apply Hwf. lia.
Qed.

Lemma wp_alreadyBroadcast_grows ty ids Q c :
  wf c -> (forall r c', grows c c' -> Q r c') -> wp (alreadyBroadcast ty ids) Q c.
Proof.
  intros Hwf HQ. unfold wp, alreadyBroadcast. cbv zeta.
  destruct ids as [| | | | |l]; try (apply HQ; unfold grows; cbn; repeat split; auto using props_kept_refl; fail).
  cbn [mem set_recent].
  destruct (mem c !! l) as [[ps [es|]]|] eqn:Hl;
    try (apply HQ; unfold grows; cbn; repeat split; auto using props_kept_refl; fail).
  destruct (existsb _ _).
  - apply HQ. unfold grows; cbn. repeat split; auto using props_kept_refl.
  - apply HQ. unfold grows, wf, set_mem, set_recent, set_draws; cbn. repeat split.
    + eapply props_kept_elems. done.
    + intros l' Hl'. rewrite lookup_insert_ne.
      * apply Hwf. done.
      * intros ->. rewrite Hwf in Hl by done. done.
Qed.

Lemma encrypted_detail_run d c :
  exists r, encrypted_detail d c = (r, c) /\
    forall v, r = Ok v ->
      exists s ct, json_stringify (mem c) d = Ok (Some s) /\
        encrypt s (get_prop (mem c) d (s2u "_originId")) = Ok ct /\
        v = VStr (s2u "BE:" ++ ct ++ s2u ":" ++ str_of (mem c) (get_prop (mem c) d (s2u "_originId"))).
Proof.
  unfold encrypted_detail.
  destruct (json_stringify (mem c) d) as [[s|]|e] eqn:J;
    try (eexists; split; [reflexivity|]; discriminate).
  destruct (encrypt s _) as [ct|e] eqn:E; (eexists; split; [reflexivity|]); [|discriminate].
  intros v [= <-]. eauto.
Qed.

Lemma wp_encrypted_detail d Q c :
  (forall r, (forall v, r = Ok v ->
      exists s ct, json_stringify (mem c) d = Ok (Some s) /\
        encrypt s (get_prop (mem c) d (s2u "_originId")) = Ok ct /\
        v = VStr (s2u "BE:" ++ ct ++ s2u ":" ++ str_of (mem c) (get_prop (mem c) d (s2u "_originId")))) ->
      Q r c) ->
  wp (encrypted_detail d) Q c.
Proof.
  intros HQ. destruct (encrypted_detail_run d c) as (r & E & Hr). unfold wp. rewrite E. apply HQ. done.
Qed.

Ltac wps :=
  match goal with
  | |- wp (bind _ _) _ _ => apply wp_bind
  | |- wp get_ctx _ _ => apply wp_get_ctx
  | |- wp (ret _) _ _ => apply wp_ret
  | |- wp (throw _) _ _ => apply wp_throw
  | |- wp (get _ _) _ _ => apply wp_get
  | |- wp (dispatch _ _) _ _ => apply wp_dispatch
  | |- wp (log _) _ _ => apply wp_log
  | |- wp (relay _ _ _ _) _ _ => apply wp_relay
  end; cbv beta iota zeta.

Lemma wp_or_alloc v o0 Q c :
  wf c -> alive (mem c) v ->
  (forall v' c', grows c c' -> draws c' = draws c -> recentEvents c' = recentEvents c ->
     alive (mem c') v' -> alive (mem c') v ->
     (truthy v = true -> v' = v) ->
     (truthy v = false -> v' = VRef (next_loc c) /\ mem c' !! next_loc c = Some o0 /\
                          mem c !! next_loc c = None) ->
     Q (Ok v') c') ->
  wp (if truthy v then ret v else alloc o0) Q c.
Proof.
  intros Hwf Ha HQ. destruct (truthy v) eqn:Ht.
  - apply wp_ret. apply HQ; auto using grows_refl. done.
  - apply wp_alloc. apply HQ; try done.
    + apply grows_alloc. done.
    + simpl. rewrite lookup_insert_eq. done.
    + apply alive_insert. done.
    + intros _. split; [done|]. split; [simpl; apply lookup_insert_eq|]. apply Hwf. lia.
Qed.

Lemma wp_set_prop' l k x Q c :
  is_Some (mem c !! l) ->
  (forall o, mem c !! l = Some o ->
     Q (Ok tt) (set_mem c (<[l := mkobj (assoc_set k x (props o)) (elems o)]> (mem c)) (next_loc c))) ->
  wp (set_prop (VRef l) k x) Q c.
Proof. intros [o Ho] HQ. eapply wp_set_prop; eauto. Qed.

Lemma wf_set c l o o' : wf c -> mem c !! l = Some o ->
  wf (set_mem c (<[l := o']> (mem c)) (next_loc c)).
Proof.
  intros Hwf Hl l' Hl'. simpl in *. rewrite lookup_insert_ne; [apply Hwf; done|].
  intros ->. rewrite Hwf in Hl by done. done.
Qed.

Lemma alive_set h l o' v : alive h v -> alive (<[l := o']> h) v.
Proof. apply alive_insert. Qed.

Lemma get_prop_fresh h l es k :
  h !! l = Some (mkobj [] es) -> in_object_proto k = false -> k <> s2u "length" ->
  get_prop h (VRef l) k = VUndef.
Proof.
  intros Hl Hp Hk. unfold get_prop. rewrite Hl. simpl.
  destruct es; [rewrite bool_decide_eq_false_2 by done|]; rewrite Hp; done.
Qed.

Lemma truthy_false_nonref v : truthy v = false -> is_object v = false.
Proof. destruct v; done. Qed.

Lemma read_same h0 h v v' k :
  props_kept h0 h -> alive h0 v -> in_object_proto k = false -> k <> s2u "length" ->
  (truthy v = true -> v' = v) ->
  (truthy v = false -> exists l es, v' = VRef l /\ h !! l = Some (mkobj [] es)) ->
  get_prop h v' k = get_prop h0 v k.
Proof.
  intros Hk Ha Hp Hl Ht Hf. destruct (truthy v) eqn:E.
  - rewrite Ht by done. apply get_prop_kept; done.
  - destruct (Hf eq_refl) as (l & es & -> & Hes). rewrite (get_prop_fresh h l es) by done.
    rewrite get_prop_nonref; [done|]. apply truthy_false_nonref. done.
Qed.

Lemma bool_true_or_false (b : bool) : b = true \/ b = false.
Proof. destruct b; auto. Qed.

Ltac keys := first [ reflexivity | discriminate | vm_compute; reflexivity | vm_compute; congruence ].

Lemma plain_kept_refl h : plain_kept h h.
Proof. intros l ps H. eauto. Qed.

Lemma plain_kept_trans h1 h2 h3 : plain_kept h1 h2 -> plain_kept h2 h3 -> plain_kept h1 h3.
Proof. intros A B l ps H. destruct (A l ps H) as [ps' H']. eapply B. done. Qed.

Lemma props_plain h h' : props_kept h h' -> plain_kept h h'.
Proof. intros K l ps H. destruct (K l _ H) as [es [H' N]]. specialize (N eq_refl). subst es. eauto. Qed.

Lemma plain_kept_set h l o ps' : h !! l = Some o -> plain_kept h (<[l := mkobj ps' (elems o)]> h).
Proof.
  intros Hl l' ps H. destruct (decide (l = l')) as [<-|Hne].
  - rewrite Hl in H. injection H as ->. rewrite lookup_insert_eq. eauto.
  - rewrite lookup_insert_ne by done. eauto.
Qed.

Lemma set_step c l o k x :
  mem c !! l = Some o -> wf c ->
  let c' := set_mem c (<[l := mkobj (assoc_set k x (props o)) (elems o)]> (mem c)) (next_loc c) in
  wf c' /\ own (mem c') l k = Some x /\
  (forall v k', k <> k' -> get_prop (mem c') v k' = get_prop (mem c) v k') /\
  (forall l' k', k <> k' -> own (mem c') l' k' = own (mem c) l' k') /\
  (forall l', is_Some (mem c !! l') -> is_Some (mem c' !! l')) /\
  plain_kept (mem c) (mem c').
Proof.
  intros Hl Hwf c'. split; [|split; [|split; [|split; [|split]]]].
  - eapply wf_set; done.
  - apply own_set_same.
  - intros v k' Hk. apply get_prop_set_other; done.
  - intros l' k' Hk. apply own_set_other; done.
  - intros l' Hl'. apply (alive_insert _ _ _ (VRef l')). done.
  - apply plain_kept_set. done.
Qed.

Lemma wp_alreadyBroadcast ty ids Q c :
  wf c ->
  (forall r c', grows c c' ->
     (r = Ok true /\ draws c' = draws c) \/ (r = Throw err_some /\ draws c' = draws c) \/
     (r = Ok false /\ draws c' = S (draws c)) ->
     (forall l ps, ids = VRef l -> mem c !! l = Some (mkobj ps (Some [])) -> r = Ok false) ->
     Q r c') ->
  wp (alreadyBroadcast ty ids) Q c.
Proof.
  intros Hwf HQ. unfold wp, alreadyBroadcast. cbv zeta.
  destruct ids as [| | | | |l];
    try (apply HQ; [unfold grows; cbn; repeat split; auto using props_kept_refl|cbn; auto|done]; fail).
  cbn [mem set_recent].
  destruct (mem c !! l) as [[ps [es|]]|] eqn:Hl;
    try (apply HQ; [unfold grows; cbn; repeat split; auto using props_kept_refl|cbn; auto|congruence]; fail).
  destruct (existsb _ _) eqn:Ex.
  - apply HQ; [unfold grows; cbn; repeat split; auto using props_kept_refl|cbn; auto|].
    intros l' ps' [= <-] Hl'. rewrite Hl in Hl'. injection Hl' as _ ->. discriminate Ex.
  - apply HQ; [|cbn; auto|done]. unfold grows, wf, set_mem, set_recent, set_draws; cbn. repeat split.
    + eapply props_kept_elems. done.
    + intros l' Hl'. rewrite lookup_insert_ne.
      * apply Hwf. done.
      * intros ->. rewrite Hwf in Hl by done. done.
Qed.

Lemma own_get h l k : in_object_proto k = false -> k <> s2u "length" ->
  truthy (get_prop h (VRef l) k) = true -> own h l k = Some (get_prop h (VRef l) k).
Proof.
  intros Hp Hk Ht. rewrite (get_prop_own h l k) in * by done.
  destruct (own h l k); done.
Qed.

Lemma wp_bind_via {A B} (m : M A) (k : A -> M B) Q P c :
  wp m P c ->
  (forall r c', P r c' -> match r with Ok a => wp (k a) Q c' | Throw e => Q (Throw e) c' end) ->
  wp (bind m k) Q c.
Proof. intros Hm HP. apply wp_bind. eapply wp_mono; [exact Hm|]. exact HP. Qed.

Lemma wp_stamp l k x c :
  is_Some (mem c !! l) -> wf c ->
  wp (if truthy (get_prop (mem c) (VRef l) k) then ret tt else set_prop (VRef l) k x)
     (fun r c' => r = Ok tt /\ env_eq c c' /\ wf c' /\
        get_prop (mem c') (VRef l) k =
          (if truthy (get_prop (mem c) (VRef l) k) then get_prop (mem c) (VRef l) k else x) /\
        (in_object_proto k = false -> k <> s2u "length" ->
           own (mem c') l k =
             Some (if truthy (get_prop (mem c) (VRef l) k) then get_prop (mem c) (VRef l) k else x)) /\
        (forall v k', k <> k' -> get_prop (mem c') v k' = get_prop (mem c) v k') /\
        (forall l' k', k <> k' -> own (mem c') l' k' = own (mem c) l' k') /\
        (forall l', is_Some (mem c !! l') -> is_Some (mem c' !! l')) /\
        plain_kept (mem c) (mem c')) c.
Proof.
  intros [o Hl] Hwf. apply wp_if; intros Ht.
  - apply wp_ret. rewrite Ht. unfold env_eq. repeat split; try done.
    + intros; apply own_get; done.
    + apply plain_kept_refl.
  - eapply wp_set_prop; [done|]. rewrite Ht.
    destruct (set_step c l o k x Hl Hwf) as (W & O & R & O' & A & P).
    unfold env_eq. repeat split; try done.
    cbn. apply get_prop_set_same.
Qed.

Lemma env_eq_grows c c' : env_eq c c' -> wf c' -> (mem c' = mem c) -> grows c c'.
Proof.
  intros (A & B & C & _) W Hm. unfold grows. rewrite Hm. auto using props_kept_refl.
Qed.

Lemma wp_or_alloc' v o0 Q c :
  wf c ->
  (forall v' c', grows c c' -> draws c' = draws c -> (truthy v = true -> v' = v) ->
     (truthy v = false -> v' = VRef (next_loc c) /\ mem c' !! next_loc c = Some o0) -> Q (Ok v') c') ->
  wp (if truthy v then ret v else alloc o0) Q c.
Proof.
  intros Hwf HQ. destruct (truthy v) eqn:Ht.
  - apply wp_ret. apply HQ; auto using grows_refl. done.
  - apply wp_alloc. apply HQ; try done. apply grows_alloc. done.
    intros _. split; [done|]. cbn. simplify_map_eq. done.
Qed.

Lemma bcast_spec n d o c :
  wf c -> alive (mem c) d -> alive (mem c) o ->
  (truthy d = false \/ is_object d = true) ->
  (truthy o = false \/ is_object o = true) ->
  let name := if truthy n then str_of (mem c) n else [] in
  let oid := get_prop (mem c) d (s2u "_originId") in
  let tid := js_or (get_prop (mem c) d (s2u "_targetId")) (get_prop (mem c) o (s2u "target")) in
  let ids := get_prop (mem c) o (s2u "_eventIds") in
  let dbg := strict_eq (get_prop (mem c) o (s2u "debug")) (VBool true) in
  let enc := truthy (get_prop (mem c) o (s2u "encrypt")) in
  let fire := negb (truthy tid) || strict_eq tid (VStr (originId (cfg c))) in
  wp (broadcastEvent n d o) (fun r c' =>
    exists ld ei es,
      cfg c' = cfg c /\ clock c' = clock c /\ wf c' /\ effects c' = effects c ++ es /\
      (plain_kept (mem c) (mem c') /\ (truthy d = false -> exists ps, mem c' !! ld = Some (mkobj ps None))) /\
      (truthy d = true -> d = VRef ld) /\
      own (mem c') ld (s2u "_originId") = Some (if truthy oid then oid else VStr (originId (cfg c))) /\
      own (mem c') ld (s2u "_targetId") = Some tid /\
      (truthy ids = true -> ei = ids) /\
      (truthy ids = false -> draws c' = S (draws c)) /\
      ( (r = Throw err_some /\ draws c' = draws c /\ es = [])
      \/ (r = Ok tt /\ draws c' = draws c /\
          es = if dbg then [Log [quoted "suppressed " name []]] else [])
      \/ (draws c' = S (draws c) /\
          exists rest,
            es = (if fire then [Dispatch name (VRef ld) (snapshot (mem c') (VRef ld))] else []) ++ rest /\
            ( (enc = false /\ r = Ok tt /\ rest = relay_effects (cfg c) (mem c') name (VRef ld) ei dbg)
            \/ (enc = true /\ exists v s ct, r = Ok tt /\
                  rest = relay_effects (cfg c) (mem c') name v ei dbg /\
                  json_stringify (mem c') (VRef ld) = Ok (Some s) /\
                  encrypt s (get_prop (mem c') (VRef ld) (s2u "_originId")) = Ok ct /\
                  v = VStr (s2u "BE:" ++ ct ++ s2u ":" ++
                            str_of (mem c') (get_prop (mem c') (VRef ld) (s2u "_originId"))))
            \/ (enc = true /\ exists e, r = Throw e /\ rest = []))))) c.
Proof.
  intros Hwf Hd Ho Hdo Hoo name oid tid ids dbg enc fire. unfold broadcastEvent.
  wps. wps. apply wp_if; intros Hchk.
  { exfalso. destruct Hdo as [H|H]; rewrite H in Hchk; [done|]. rewrite andb_false_r in Hchk. done. }
  wps. apply wp_or_alloc; [done..|].
  intros dd c1 G1 Dr1 Rc1 Hdd1 _ Hdd_eq Hdd_new.
  wps. apply wp_or_alloc; [apply G1|eapply alive_kept; [apply G1|done]|].
  intros oo c2 G2 Dr2 Rc2 Hoo2 Hdd2 Hoo_eq Hoo_new.
  pose proof (grows_trans _ _ _ G1 G2) as G02.
  assert (Hoo_read : forall k, in_object_proto k = false -> k <> s2u "length" ->
            get_prop (mem c2) oo k = get_prop (mem c) o k).
  { intros k Hp Hl. eapply read_same; [apply G02|done..|].
    intros Hf. destruct (Hoo_new Hf) as (-> & Hl2 & _). eauto. }
  assert (Hdd_read : forall k, in_object_proto k = false -> k <> s2u "length" ->
            get_prop (mem c2) dd k = get_prop (mem c) d k).
  { intros k Hp Hl. eapply read_same; [apply G02|done..|].
    intros Hf. destruct (Hdd_new Hf) as (-> & Hl1 & _).
    destruct G2 as (_ & _ & _ & K2 & _). destruct (K2 _ _ Hl1) as [es [Hes _]]. eauto. }
  assert (exists lo, oo = VRef lo /\ is_Some (mem c2 !! lo)) as (lo & -> & Hlo).
  { destruct (bool_true_or_false (truthy o)) as [E|E].
    - rewrite Hoo_eq in Hoo2 |- * by done. destruct Hoo as [H|H]; [congruence|].
      destruct o; try done. eauto.
    - destruct (Hoo_new E) as (-> & Hl2 & _). eauto. }
  assert (exists ld, dd = VRef ld /\ is_Some (mem c2 !! ld)) as (ld & -> & Hld).
  { destruct (bool_true_or_false (truthy d)) as [E|E].
    - rewrite Hdd_eq in Hdd1 |- * by done. destruct Hdo as [H|H]; [congruence|].
      destruct d; try done. simpl in Hdd1. destruct G2 as (_ & _ & _ & K2 & _).
      destruct Hdd1 as [od Hod]. destruct (K2 _ _ Hod) as [es [Hes _]]. eauto.
    - destruct (Hdd_new E) as (-> & Hl1 & _).
      destruct G2 as (_ & _ & _ & K2 & _). destruct (K2 _ _ Hl1) as [es [Hes _]]. eauto. }
  destruct G02 as (Cf2 & Ck2 & Ef2 & K02 & W2).
  (* options.debug = (options.debug === true) *)
  wps. wps. wps. apply wp_set_prop'; [done|]. intros oobj Hoobj. cbv beta iota.
  rewrite (Hoo_read (s2u "debug")) by keys. fold dbg.
  destruct (set_step c2 lo oobj (s2u "debug") (VBool dbg) Hoobj W2) as (W3 & _ & R3 & O3 & A3 & P3).
  set (c3 := set_mem c2 _ _) in *.
  assert (cfg c3 = cfg c2 /\ clock c3 = clock c2 /\ effects c3 = effects c2 /\ draws c3 = draws c2)
    as (Cf3 & Ck3 & Ef3 & Dr3) by (unfold c3; cbn; auto).
  (* eventData._originId *)
  wps. wps. apply (wp_bind_via _ _ _ _ _ (wp_stamp ld (s2u "_originId") (VStr (originId (cfg c))) c3 (A3 _ Hld) W3)).
  intros r4 c4 (-> & E4 & W4 & _ & O4 & R4 & O4' & A4 & P4).
  rewrite R3, Hdd_read in O4 by keys. fold oid in O4. specialize (O4 ltac:(keys) ltac:(keys)).
  (* eventData._targetId *)
  wps. wps. wps. wps. wps. apply wp_set_prop'; [apply A4, A3; done|]. intros od4 Hod4. cbv beta iota.
  rewrite R4, R3, Hdd_read by keys. rewrite R4, R3, Hoo_read by keys. fold tid.
  destruct (set_step c4 ld od4 (s2u "_targetId") tid Hod4 W4) as (W5 & O5 & R5 & O5' & A5 & P5).
  set (c5 := set_mem c4 _ _) in *.
  destruct E4 as (Cf4 & Ck4 & Ef4 & Dr4 & _).
  assert (Hread5 : forall k, in_object_proto k = false -> k <> s2u "length" ->
     s2u "debug" <> k -> s2u "_originId" <> k -> s2u "_targetId" <> k ->
     get_prop (mem c5) (VRef lo) k = get_prop (mem c) o k).
  { intros k Hp Hl H1 H2 H3. rewrite R5, R4, R3, Hoo_read by done. done. }
  assert (own (mem c5) ld (s2u "_originId") = Some (if truthy oid then oid else VStr (originId (cfg c)))
               /\ own (mem c5) ld (s2u "_targetId") = Some tid) as [Ho5 Ht5].
  { split; [|done]. rewrite O5' by keys. done. }
  assert (Hld5 : is_Some (mem c5 !! ld)) by (apply A5, A4, A3; done).
  assert (cfg c5 = cfg c /\ clock c5 = clock c /\ effects c5 = effects c /\ draws c5 = draws c)
    as (Cf5 & Ck5 & Ef5 & Dr5).
  { unfold c5; cbn. repeat split; congruence. }
  clear Cf4 Ck4 Ef4 Dr4 Cf3 Ck3 Ef3 Dr3.
  clearbody c5.
  (* payload.eventIds *)
  wps. wps. rewrite Hread5 by keys. fold ids.
  wps. apply wp_or_alloc'; [done|]. intros ei c6 G6 Dr6 Hei Hei'.
  (* alreadyBroadcast *)
  wps. apply wp_alreadyBroadcast; [apply G6|]. intros r7 c7 G7 Hr7 Hfresh.
  assert (Hnot : truthy ids = false -> r7 = Ok false).
  { intros Hf. destruct (Hei' Hf) as [-> Hm]. eapply Hfresh; done. }
  pose proof (grows_trans _ _ _ G6 G7) as G57.
  destruct G57 as (Cf7 & Ck7 & Ef7 & K7 & W7).
  assert (P7 : plain_kept (mem c) (mem c7)).
  { apply (plain_kept_trans _ _ _ (props_plain _ _ K02)).
    apply (plain_kept_trans _ _ _ P3), (plain_kept_trans _ _ _ P4), (plain_kept_trans _ _ _ P5).
    apply props_plain. done. }
  assert (Pf : truthy d = false -> exists ps, mem c7 !! ld = Some (mkobj ps None)).
  { intros E. destruct (Hdd_new E) as ([= Heq] & Hl1 & _). rewrite <- Heq in Hl1.
    destruct G2 as (_ & _ & _ & K2 & _). destruct (props_plain _ _ K2 _ _ Hl1) as [p2 H2].
    destruct (P3 _ _ H2) as [p3 H3]. destruct (P4 _ _ H3) as [p4 H4]. destruct (P5 _ _ H4) as [p5 H5].
    exact (props_plain _ _ K7 _ _ H5). }
  assert (own (mem c7) ld (s2u "_originId") = Some (if truthy oid then oid else VStr (originId (cfg c)))
               /\ own (mem c7) ld (s2u "_targetId") = Some tid) as [Ho7 Ht7].
  { rewrite !(own_kept (mem c5) (mem c7)) by done. done. }
  assert (Hd' : truthy d = true -> d = VRef ld) by (intros H; symmetry; apply Hdd_eq, H).
  destruct Hr7 as [(-> & Dr7)|[(-> & Dr7)|(-> & Dr7)]].
  - (* suppressed *)
    cbv beta iota. apply wp_if; intros Hdbg.
    + wps. exists ld, ei, [Log [quoted "suppressed " name []]].
      unfold add_effect; cbn [cfg clock effects mem draws next_loc].
      do 10 (split; [first [congruence | assumption | (let Hf := fresh in intros Hf; specialize (Hnot Hf); discriminate) | (intros _; congruence) | (split; [assumption|exact Pf]) | rewrite Ef7, Ef5; done]|]).
      right; left. split; [done|]. split; [congruence|]. fold dbg in Hdbg. rewrite Hdbg. done.
    + wps. exists ld, ei, [].
      do 10 (split; [first [congruence | assumption | (let Hf := fresh in intros Hf; specialize (Hnot Hf); discriminate) | (intros _; congruence) | (split; [assumption|exact Pf]) | rewrite app_nil_r; congruence]|]).
      right; left. split; [done|]. split; [congruence|]. fold dbg in Hdbg. rewrite Hdbg. done.
  - (* eventIds without some *)
    cbv beta iota. exists ld, ei, [].
    do 10 (split; [first [congruence | assumption | (let Hf := fresh in intros Hf; specialize (Hnot Hf); discriminate) | (intros _; congruence) | (split; [assumption|exact Pf]) | rewrite app_nil_r; congruence]|]).
    left. split; [done|]. split; [congruence|done].
  - (* not suppressed *)
    cbv beta iota. wps. wps.
    rewrite (get_prop_own (mem c7) ld (s2u "_targetId")) by keys. rewrite Ht7. change (default VUndef (Some tid)) with tid.
    fold fire name.
    apply (wp_bind_via _ _ _ (fun r c8 => r = Ok tt /\
             c8 = add_effects c7 (if fire then [Dispatch name (VRef ld) (snapshot (mem c7) (VRef ld))] else []))).
    { apply wp_if; intros Hf; rewrite Hf; [apply wp_dispatch|apply wp_ret]; split; try done.
      rewrite add_effects_nil; done. }
    intros r8 c8 [-> ->]. cbv beta iota.
    wps. wps. cbn [mem add_effects].
    assert (Hlo5 : is_Some (mem c5 !! lo)) by (apply A5, A4, A3; done).
    rewrite (get_prop_kept (mem c5) (mem c7)) by (done || keys).
    rewrite Hread5 by keys. fold enc.
    set (DF := if fire then [Dispatch name (VRef ld) (snapshot (mem c7) (VRef ld))] else []) in *.
    assert (cfg c7 = cfg c /\ clock c7 = clock c /\ draws c7 = S (draws c) /\ effects c7 = effects c)
      as (Cf8 & Ck8 & Dr8 & Ef8) by (repeat split; congruence).
    assert (Wadd : forall c0 es, wf c0 -> wf (add_effects c0 es)) by (intros c0 es; unfold wf; cbn; done).
    apply wp_bind. apply wp_if; intros Henc.
    + apply wp_encrypted_detail. intros r Hr. destruct r as [v|e]; cbv beta iota.
      * destruct (Hr v eq_refl) as (s & ct & Hs & Hct & Hv).
        apply wp_relay. exists ld, ei, (DF ++ relay_effects (cfg c) (mem c7) name v ei dbg).
        rewrite !add_effects_app. cbn [add_effects cfg clock mem draws effects] in *. rewrite Cf8 in *.
        do 10 (split; [first [congruence | assumption | (let Hf := fresh in intros Hf; specialize (Hnot Hf); discriminate) | (intros _; congruence) | (split; [assumption|exact Pf]) | apply Wadd; assumption | rewrite Ef8; done]|]).
        right; right. split; [congruence|]. exists (relay_effects (cfg c) (mem c7) name v ei dbg).
        split; [done|]. right; left. split; [done|]. exists v, s, ct. done.
      * exists ld, ei, DF. cbn [add_effects cfg clock mem draws effects] in *.
        do 10 (split; [first [congruence | assumption | (let Hf := fresh in intros Hf; specialize (Hnot Hf); discriminate) | (intros _; congruence) | (split; [assumption|exact Pf]) | apply Wadd; assumption | rewrite Ef8; done]|]).
        right; right. split; [congruence|]. exists []. rewrite app_nil_r. split; [done|].
        right; right. split; [done|]. eauto.
    + apply wp_ret. cbv beta iota. apply wp_relay.
      exists ld, ei, (DF ++ relay_effects (cfg c) (mem c7) name (VRef ld) ei dbg).
      rewrite !add_effects_app. cbn [add_effects cfg clock mem draws effects] in *. rewrite Cf8 in *.
      do 10 (split; [first [congruence | assumption | (let Hf := fresh in intros Hf; specialize (Hnot Hf); discriminate) | (intros _; congruence) | (split; [assumption|exact Pf]) | apply Wadd; assumption | rewrite Ef8; done]|]).
      right; right. split; [congruence|]. exists (relay_effects (cfg c) (mem c7) name (VRef ld) ei dbg).
      split; [done|]. left. done.
Qed.



(** ** What [relay] sends *)

Lemma send_effects_posts w h t ty d i dbg e :
  In e (send_effects w h t ty d i dbg) ->
  exists wd wi, e = Post t ty d i (envelope ty wd wi dbg) /\ t <> self w /\
    snapshot h d = Some wd /\ snapshot h i = Some wi.
Proof.
  unfold send_effects. destruct (Nat.eqb_spec t (self w)); [done|].
  destruct (snapshot h d) eqn:Ed, (snapshot h i) eqn:Ei; try done.
  intros [<-|[]]. eauto 7.
Qed.

Lemma relay_effects_shape w h ty d i dbg e :
  In e (relay_effects w h ty d i dbg) ->
  (exists t wd wi, e = Post t ty d i (envelope ty wd wi dbg) /\ t <> self w /\
     snapshot h d = Some wd /\ snapshot h i = Some wi) \/ (exists a, e = Log a).
Proof.
  unfold relay_effects. rewrite in_app_iff, in_flat_map.
  intros [He|(f & _ & He)].
  - destruct (negb _); [|done]. apply in_app_iff in He as [He|He].
    + left. destruct (send_effects_posts _ _ _ _ _ _ _ _ He) as (wd & wi & -> & ?). eauto 8.
    + destruct dbg; [|done]. destruct He as [<-|[]]. eauto.
  - apply in_app_iff in He as [He|He].
    + left. destruct (send_effects_posts _ _ _ _ _ _ _ _ He) as (wd & wi & -> & ?). eauto 8.
    + destruct dbg; [|done]. destruct He as [<-|[]]. eauto.
Qed.

Lemma dispatches_app es1 es2 : dispatches (es1 ++ es2) = (dispatches es1 + dispatches es2)%nat.
Proof.
  unfold dispatches. induction es1 as [|e es1 IH]; [done|].
  cbn. destruct (is_dispatch e); cbn; lia.
Qed.

Lemma dispatches_none es : (forall e, In e es -> is_dispatch e = false) -> dispatches es = 0%nat.
Proof.
  unfold dispatches. induction es as [|e es IH]; intros H; [done|].
  cbn. rewrite H by (left; done). apply IH. intros e' He'. apply H. right. done.
Qed.

Lemma relay_effects_dispatches w h ty d i dbg : dispatches (relay_effects w h ty d i dbg) = 0%nat.
Proof.
  apply dispatches_none. intros e He.
  destruct (relay_effects_shape _ _ _ _ _ _ _ He) as [(t & wd & wi & -> & _)|(a & ->)]; done.
Qed.

Lemma send_effects_targets w h t ty d i dbg wd wi :
  snapshot h d = Some wd -> snapshot h i = Some wi ->
  post_targets (send_effects w h t ty d i dbg) = if Nat.eqb t (self w) then [] else [t].
Proof. intros Hd Hi. unfold send_effects. rewrite Hd, Hi. destruct (Nat.eqb t (self w)); done. Qed.

Lemma post_targets_app es1 es2 : post_targets (es1 ++ es2) = post_targets es1 ++ post_targets es2.
Proof. unfold post_targets. apply flat_map_app. Qed.

Lemma post_targets_logs (dbg : bool) (a : list jsstr) : post_targets (if dbg then [Log a] else []) = @nil nat.
Proof. destruct dbg; done. Qed.

Lemma relay_effects_targets w h ty d i dbg wd wi :
  snapshot h d = Some wd -> snapshot h i = Some wi ->
  post_targets (relay_effects w h ty d i dbg) =
    (if negb (Nat.eqb (parent w) (self w)) then [parent w] else []) ++
    List.filter (fun f => negb (Nat.eqb f (self w))) (frames w).
Proof.
  intros Hd Hi. unfold relay_effects. rewrite post_targets_app. f_equal.
  - destruct (Nat.eqb (parent w) (self w)) eqn:E; cbn [negb]; [done|].
    rewrite post_targets_app, post_targets_logs, app_nil_r, (send_effects_targets _ _ _ _ _ _ _ wd wi), E by done.
    done.
  - induction (frames w) as [|f fs IH]; [done|]. cbn [flat_map List.filter].
    rewrite post_targets_app, post_targets_app, post_targets_logs, app_nil_r,
      (send_effects_targets _ _ _ _ _ _ _ wd wi), IH by done.
    destruct (Nat.eqb f (self w)); done.
Qed.


(** ** Structured clone *)


Lemma clone_ref f h l :
  clone (S f) h (VRef l) =
    match h !! l with
    | Some (mkobj ps None) => match clone_members f h ps with Some ws => Some (WObj ws) | None => None end
    | Some (mkobj _ (Some es)) => match clone_items f h es with Some ws => Some (WArr ws) | None => None end
    | None => None
    end.
Proof. reflexivity. Qed.

Lemma materialize_obj ps h n :
  materialize (WObj ps) h n =
    let '(vs, h', n') := mat_members ps h (S n) in (VRef n, <[n := mkobj vs None]> h', n').
Proof. reflexivity. Qed.

Lemma materialize_arr es h n :
  materialize (WArr es) h n =
    let '(vs, h', n') := mat_items es h (S n) in (VRef n, <[n := mkobj [] (Some vs)]> h', n').
Proof. reflexivity. Qed.

(** A clone that succeeds reads only objects that a larger heap keeps. *)
Lemma clone_mono f h h2 v w : h ⊆ h2 -> clone f h v = Some w -> clone f h2 v = Some w.
Proof.
  intros Hs. revert v w. induction f as [|f IH]; intros v w.
  - destruct v; done.
  - destruct v as [| | | | |l]; try done. rewrite !clone_ref.
    destruct (h !! l) as [[ps [es|]]|] eqn:Hl; [| |done];
      rewrite (lookup_weaken h h2 l _ Hl Hs).
    + assert (Hi : forall es w, clone_items f h es = Some w -> clone_items f h2 es = Some w).
      { intros es'; induction es' as [|x r IHr]; intros w0; cbn; [done|].
        destruct (clone f h x) eqn:E1, (clone_items f h r) eqn:E2; try done.
        rewrite (IH _ _ E1), (IHr _ eq_refl). done. }
      destruct (clone_items f h es) eqn:E; [|done]. rewrite (Hi _ _ E). done.
    + assert (Hm : forall ps w, clone_members f h ps = Some w -> clone_members f h2 ps = Some w).
      { intros ps'; induction ps' as [|[k x] r IHr]; intros w0; cbn; [done|].
        destruct (clone f h x) eqn:E1, (clone_members f h r) eqn:E2; try done.
        rewrite (IH _ _ E1), (IHr _ eq_refl). done. }
      destruct (clone_members f h ps) eqn:E; [|done]. rewrite (Hm _ _ E). done.
Qed.

Lemma clone_members_mono f h h2 ps ws :
  h ⊆ h2 -> clone_members f h ps = Some ws -> clone_members f h2 ps = Some ws.
Proof.
  intros Hs. revert ws. induction ps as [|[k x] r IHr]; intros ws; cbn; [done|].
  destruct (clone f h x) eqn:E1; [|done]. destruct (clone_members f h r) eqn:E2; [|done].
  rewrite (clone_mono _ _ _ _ _ Hs E1), (IHr _ eq_refl). done.
Qed.

Lemma clone_items_mono f h h2 es ws :
  h ⊆ h2 -> clone_items f h es = Some ws -> clone_items f h2 es = Some ws.
Proof.
  intros Hs. revert ws. induction es as [|x r IHr]; intros ws; cbn; [done|].
  destruct (clone f h x) eqn:E1; [|done]. destruct (clone_items f h r) eqn:E2; [|done].
  rewrite (clone_mono _ _ _ _ _ Hs E1), (IHr _ eq_refl). done.
Qed.

Lemma extends_subseteq h n h' n' : fresh_from h n -> extends h n h' n' -> h ⊆ h'.
Proof.
  intros F [_ A]. apply map_subseteq_spec. intros l o Hl.
  destruct (decide (l < n)%nat) as [Hlt|Hge].
  - rewrite A by lia. done.
  - rewrite F in Hl by lia. done.
Qed.

Lemma extends_fresh h n h' n' : fresh_from h n -> extends h n h' n' -> fresh_from h' n'.
Proof. intros F [Hn A] l Hl. rewrite A by lia. apply F. lia. Qed.

Lemma extends_trans h n h1 n1 h2 n2 :
  extends h n h1 n1 -> extends h1 n1 h2 n2 -> extends h n h2 n2.
Proof.
  intros [N1 A1] [N2 A2]. split; [lia|]. intros l Hl.
  rewrite A2 by lia. apply A1. lia.
Qed.

Lemma mat_members_ok ps : Forall (fun p => mat_ok p.2) ps ->
  forall h n vs h' n', fresh_from h n -> mat_members ps h n = (vs, h', n') ->
    extends h n h' n' /\ exists f0, forall f, (f0 <= f)%nat -> clone_members f h' vs = Some ps.
Proof.
  induction ps as [|[k x] r IHr]; intros HF h n vs h' n' F Hm.
  - injection Hm as <- <- <-. split; [split; [lia|done]|]. exists O. done.
  - apply Forall_cons_1 in HF as [Hx Hr]. cbn in Hm.
    destruct (materialize x h n) as [[v h1] n1] eqn:E1.
    destruct (mat_members r h1 n1) as [[vs' h2] n2] eqn:E2.
    injection Hm as <- <- <-.
    destruct (Hx _ _ _ _ _ F E1) as [X1 [f1 C1]].
    pose proof (extends_fresh _ _ _ _ F X1) as F1.
    destruct (IHr Hr _ _ _ _ _ F1 E2) as [X2 [f2 C2]].
    split; [eapply extends_trans; done|].
    exists (f1 `max` f2)%nat. intros f Hf. cbn.
    rewrite (clone_mono _ _ _ _ _ (extends_subseteq _ _ _ _ F1 X2) (C1 f ltac:(lia))), C2 by lia.
    done.
Qed.

Lemma mat_items_ok es : Forall mat_ok es ->
  forall h n vs h' n', fresh_from h n -> mat_items es h n = (vs, h', n') ->
    extends h n h' n' /\ exists f0, forall f, (f0 <= f)%nat -> clone_items f h' vs = Some es.
Proof.
  induction es as [|x r IHr]; intros HF h n vs h' n' F Hm.
  - injection Hm as <- <- <-. split; [split; [lia|done]|]. exists O. done.
  - apply Forall_cons_1 in HF as [Hx Hr]. cbn in Hm.
    destruct (materialize x h n) as [[v h1] n1] eqn:E1.
    destruct (mat_items r h1 n1) as [[vs' h2] n2] eqn:E2.
    injection Hm as <- <- <-.
    destruct (Hx _ _ _ _ _ F E1) as [X1 [f1 C1]].
    pose proof (extends_fresh _ _ _ _ F X1) as F1.
    destruct (IHr Hr _ _ _ _ _ F1 E2) as [X2 [f2 C2]].
    split; [eapply extends_trans; done|].
    exists (f1 `max` f2)%nat. intros f Hf. cbn.
    rewrite (clone_mono _ _ _ _ _ (extends_subseteq _ _ _ _ F1 X2) (C1 f ltac:(lia))), C2 by lia.
    done.
Qed.

Lemma fresh_from_S h n : fresh_from h n -> fresh_from h (S n).
Proof. intros F l Hl. apply F. lia. Qed.

Lemma materialize_ok w : mat_ok w.
Proof.
  induction w as [| | b | z | s | ps IH | es IH] using wval_ind';
    intros h n v h' n' F Hm;
    try (injection Hm as <- <- <-; split; [split; [lia|done]|]; exists 1%nat; intros [|f] Hf; [lia|done]).
  - rewrite materialize_obj in Hm.
    destruct (mat_members ps h (S n)) as [[vs h2] n2] eqn:E.
    injection Hm as <- <- <-.
    destruct (mat_members_ok ps IH _ _ _ _ _ (fresh_from_S _ _ F) E) as [[N2 A2] [f0 C]].
    assert (Hn : h2 !! n = None) by (rewrite A2 by lia; apply F; lia).
    split.
    + split; [lia|]. intros l Hl. rewrite lookup_insert_ne by lia. apply A2. lia.
    + exists (S f0). intros [|f] Hf; [lia|]. rewrite clone_ref, lookup_insert_eq.
      rewrite (clone_members_mono _ h2 _ _ _ (insert_subseteq _ _ _ Hn) (C f ltac:(lia))). done.
  - rewrite materialize_arr in Hm.
    destruct (mat_items es h (S n)) as [[vs h2] n2] eqn:E.
    injection Hm as <- <- <-.
    destruct (mat_items_ok es IH _ _ _ _ _ (fresh_from_S _ _ F) E) as [[N2 A2] [f0 C]].
    assert (Hn : h2 !! n = None) by (rewrite A2 by lia; apply F; lia).
    split.
    + split; [lia|]. intros l Hl. rewrite lookup_insert_ne by lia. apply A2. lia.
    + exists (S f0). intros [|f] Hf; [lia|]. rewrite clone_ref, lookup_insert_eq.
      rewrite (clone_items_mono _ h2 _ _ _ (insert_subseteq _ _ _ Hn) (C f ltac:(lia))). done.
Qed.

(** ** Reading a received message *)

Lemma clone_str_inv f h x s : clone f h x = Some (WStr s) -> x = VStr s.
Proof.
  destruct f as [|f], x as [| | | | |l]; try (cbn; congruence).
  rewrite clone_ref.
  destruct (h !! l) as [[ps [es|]]|]; [destruct (clone_items f h es)|destruct (clone_members f h ps)|]; done.
Qed.

Lemma clone_obj_inv f h x ws : clone f h x = Some (WObj ws) ->
  exists f' l ps, f = S f' /\ x = VRef l /\ h !! l = Some (mkobj ps None) /\ clone_members f' h ps = Some ws.
Proof.
  destruct f as [|f], x as [| | | | |l]; try (cbn; congruence).
  rewrite clone_ref.
  destruct (h !! l) as [[ps [es|]]|] eqn:Hl; [destruct (clone_items f h es)|destruct (clone_members f h ps) eqn:E|]; try done.
  intros [= <-]. eauto 7.
Qed.

Lemma clone_members_wget f h ps ws k w :
  clone_members f h ps = Some ws -> wget k ws = Some w ->
  exists x, assoc k ps = Some x /\ clone f h x = Some w.
Proof.
  revert ws. induction ps as [|[k' x] r IH]; intros ws; cbn; [intros [= <-]; done|].
  destruct (clone f h x) eqn:E1; [|done]. destruct (clone_members f h r) eqn:E2; [|done].
  intros [= <-]. cbn. case_bool_decide.
  - intros [= <-]. eauto.
  - apply IH. done.
Qed.

(** A field of a received object is the clone of the field sent. *)
Lemma clone_read h x ws k w f0 :
  (forall f, (f0 <= f)%nat -> clone f h x = Some (WObj ws)) -> wget k ws = Some w ->
  forall f, (f0 <= f)%nat -> clone f h (get_prop h x k) = Some w.
Proof.
  intros Hc Hw f Hf. destruct (clone_obj_inv _ _ _ _ (Hc (S f) ltac:(lia))) as (f' & l & ps & [= <-] & -> & Hl & Hm).
  destruct (clone_members_wget _ _ _ _ _ _ Hm Hw) as (y & Hy & Cy).
  unfold get_prop. rewrite Hl. cbn. rewrite Hy. done.
Qed.

Lemma wp_receive w Q c :
  (forall v h n, materialize w (mem c) (next_loc c) = (v, h, n) -> Q (Ok v) (set_mem c h n)) ->
  wp (receive w) Q c.
Proof.
  intros HQ. unfold wp, receive. destruct (materialize w (mem c) (next_loc c)) as [[v h] n] eqn:E.
  apply HQ. done.
Qed.

Lemma str_of_part h s i : str_of h (part s i) = str_of ∅ (part s i).
Proof. unfold part. destruct (split_on 58 s !! i); done. Qed.

Lemma starts_with_nonempty p s : starts_with p s = true -> p <> [] -> s <> [].
Proof. destruct p, s; cbn; done. Qed.

(** C9: when a window receives an envelope whose detail is a string starting
    with ["BE:"] and the decryption throws or yields nothing parseable, the
    listener does not throw: it logs the failure and calls [broadcastEvent]
    with a null detail. *)
Lemma onMessage_decrypt_failure (jp : jsstr -> option wval) src ps qs ty s c :
  wf c -> src <> self (cfg c) ->
  wget (s2u "_broadcast") ps = Some (WObj qs) ->
  wget (s2u "type") qs = Some (WStr ty) ->
  wget (s2u "detail") qs = Some (WStr s) ->
  starts_with (s2u "BE:") s = true ->
  match decrypt (str_of ∅ (part s 1)) (part s 2) with Ok p => jp p = None | Throw _ => True end ->
  exists c' opts pre,
    onMessage jp src (WObj ps) c = broadcastEvent (VStr ty) VNull opts c' /\
    cfg c' = cfg c /\ wf c' /\
    effects c' = effects c ++ pre ++ [Log [s2u "Failed to decrypt event data"]] /\
    (pre = [] \/ exists a, pre = [Log a]).
Proof.
  intros Hwf Hsrc Hb Hty Hdet Hbe Hdec.
  assert (wp (onMessage jp src (WObj ps)) (fun r c'' => exists c' opts pre,
    (r, c'') = broadcastEvent (VStr ty) VNull opts c' /\
    cfg c' = cfg c /\ wf c' /\
    effects c' = effects c ++ pre ++ [Log [s2u "Failed to decrypt event data"]] /\
    (pre = [] \/ exists a, pre = [Log a])) c) as Hwp.
  2:{ unfold wp in Hwp. destruct Hwp as (c' & opts & pre & E & R). exists c', opts, pre.
      rewrite <- E. destruct (onMessage _ _ _ c); done. }
  unfold onMessage. wps. wps. apply wp_if; intros Hs.
  { apply Nat.eqb_eq in Hs. done. }
  wps. apply wp_receive. intros v h n Hm.
  destruct (materialize_ok _ _ _ _ _ _ Hwf Hm) as [X [f0 C]].
  destruct (clone_obj_inv _ _ _ _ (C f0 ltac:(lia))) as (? & l & ? & _ & -> & _).
  cbv beta iota. cbn [truthy].
  pose proof (clone_read _ _ _ _ _ _ C Hb) as Cb.
  destruct (clone_obj_inv _ _ _ _ (Cb f0 ltac:(lia))) as (? & lb & qps & _ & Eb & Hlb & _).
  rewrite Eb in Cb.
  pose proof (clone_str_inv _ _ _ _ (clone_read _ _ _ _ _ _ Cb Hty f0 ltac:(lia))) as Ety.
  pose proof (clone_str_inv _ _ _ _ (clone_read _ _ _ _ _ _ Cb Hdet f0 ltac:(lia))) as Edet.
  wps. wps. cbn [mem set_mem]. rewrite Eb.
  wps. wps. cbn [mem set_mem]. rewrite Ety.
  wps. wps. cbn [mem set_mem]. rewrite Edet.
  assert (Hs0 : truthy (VStr s) = true).
  { cbn. rewrite bool_decide_eq_false_2; [done|]. apply (starts_with_nonempty _ _ Hbe). done. }
  rewrite Hs0. cbn [truthy is_string andb].
  set (c1 := set_mem c h n).
  assert (W1 : wf c1) by (exact (extends_fresh _ _ _ _ Hwf X)).
  assert (Hlb1 : mem c1 !! lb = Some (mkobj qps None)) by exact Hlb.
  assert (Cf1 : cfg c1 = cfg c /\ effects c1 = effects c) by done.
  assert (Dr1 : draws c1 = draws c) by done.
  clearbody c1. clear Hm C Cb.
  wps. wps.
  apply (wp_bind_via _ _ _ (fun r c2 => r = Ok tt /\ exists pre, c2 = add_effects c1 pre /\
           (pre = [] \/ exists a, pre = [Log a]))).
  { apply wp_if; intros _; [apply wp_log|apply wp_ret]; (split; [done|]).
    - exists [Log [quoted "received " (str_of (mem c) (VStr ty)) []]]. eauto.
    - exists []. rewrite add_effects_nil. auto. }
  intros r c2 [-> (pre & -> & Hpre)]. cbv beta iota. rewrite Hbe.
  wps.
  apply (wp_bind_via _ _ _ (fun r c3 => r = Ok VNull /\
           c3 = add_effects c1 (pre ++ [Log [s2u "Failed to decrypt event data"]]))).
  { unfold decrypt_detail. wps. wps. rewrite str_of_part.
    destruct (decrypt _ _) as [p|e] eqn:D; [rewrite Hdec|]; wps; (apply wp_log; apply wp_ret);
      (split; [done|]); rewrite add_effect_app, add_effects_app; done. }
  intros r c3 [-> ->]. cbv beta iota.
  eapply wp_set_prop; [exact Hlb1|]. cbv beta iota.
  wps. wps. wps. wps. wps. wps. wps. apply wp_alloc. cbv beta iota. wps. wps.
  cbn [mem set_mem add_effects next_loc].
  set (m := <[lb:=_]> (mem c1)).
  assert (Hn : lb <> next_loc c1).
  { intros E. rewrite W1 in Hlb1 by lia. done. }
  assert (E : get_prop (<[next_loc c1 := mkobj [(s2u "_eventIds", get_prop m (VRef lb) (s2u "eventIds"));
                 (s2u "debug", get_prop m (VRef lb) (s2u "debug"));
                 (s2u "target", get_prop m (VRef lb) (s2u "target"))] None]> m) (VRef lb) (s2u "detail") = VNull).
  { unfold get_prop at 1. rewrite lookup_insert_ne by congruence. unfold m. apply get_prop_set_same. }
  rewrite E. unfold wp. eexists _, _, pre. split; [symmetry; apply surjective_pairing|].
  cbn [cfg effects set_mem add_effects]. destruct Cf1 as [-> ->]. split; [done|]. split; [|done].
  intros l' Hl'. cbn in Hl' |- *. rewrite lookup_insert_ne by lia. unfold m.
  rewrite lookup_insert_ne by (intros ->; rewrite W1 in Hlb1 by lia; done). apply W1. lia.
Qed.

Lemma clone_members_wget_none f h ps ws k :
  clone_members f h ps = Some ws -> wget k ws = None -> assoc k ps = None.
Proof.
  revert ws. induction ps as [|[k' x] r IH]; intros ws; cbn; [done|].
  destruct (clone f h x) eqn:E1; [|done]. destruct (clone_members f h r) eqn:E2; [|done].
  intros [= <-]. cbn. case_bool_decide; [done|]. apply IH. done.
Qed.

Lemma clone_read_none h x ws k f0 :
  (forall f, (f0 <= f)%nat -> clone f h x = Some (WObj ws)) -> wget k ws = None ->
  in_object_proto k = false -> get_prop h x k = VUndef.
Proof.
  intros Hc Hw Hp. destruct (clone_obj_inv _ _ _ _ (Hc (S f0) ltac:(lia))) as (f' & l & ps & _ & -> & Hl & Hm).
  unfold get_prop. rewrite Hl. cbn. rewrite (clone_members_wget_none _ _ _ _ _ Hm Hw), Hp. done.
Qed.

(** The handler on an unencrypted envelope whose detail is an object: it
    re-broadcasts the received copy of that object, with options built
    from the envelope. *)
Lemma onMessage_plain (jp : jsstr -> option wval) src ps qs ty dps c :
  wf c -> src <> self (cfg c) ->
  wget (s2u "_broadcast") ps = Some (WObj qs) ->
  wget (s2u "type") qs = Some (WStr ty) ->
  wget (s2u "detail") qs = Some (WObj dps) ->
  exists c' ld lo pre f0,
    onMessage jp src (WObj ps) c = broadcastEvent (VStr ty) (VRef ld) (VRef lo) c' /\
    cfg c' = cfg c /\ wf c' /\ effects c' = effects c ++ pre /\
    (pre = [] \/ exists a, pre = [Log a]) /\
    (forall f, (f0 <= f)%nat -> clone f (mem c') (VRef ld) = Some (WObj dps)) /\
    is_Some (mem c' !! ld) /\ is_Some (mem c' !! lo) /\
    get_prop (mem c') (VRef lo) (s2u "encrypt") = VUndef /\
    (wget (s2u "target") qs = None -> get_prop (mem c') (VRef lo) (s2u "target") = VUndef) /\
    draws c' = draws c.
Proof.
  intros Hwf Hsrc Hb Hty Hdet.
  assert (wp (onMessage jp src (WObj ps)) (fun r c'' => exists c' ld lo pre f0,
    (r, c'') = broadcastEvent (VStr ty) (VRef ld) (VRef lo) c' /\
    cfg c' = cfg c /\ wf c' /\ effects c' = effects c ++ pre /\
    (pre = [] \/ exists a, pre = [Log a]) /\
    (forall f, (f0 <= f)%nat -> clone f (mem c') (VRef ld) = Some (WObj dps)) /\
    is_Some (mem c' !! ld) /\ is_Some (mem c' !! lo) /\
    get_prop (mem c') (VRef lo) (s2u "encrypt") = VUndef /\
    (wget (s2u "target") qs = None -> get_prop (mem c') (VRef lo) (s2u "target") = VUndef) /\
    draws c' = draws c) c) as Hwp.
  2:{ unfold wp in Hwp. destruct Hwp as (c' & ld & lo & pre & f0 & E & R). exists c', ld, lo, pre, f0.
      rewrite <- E. destruct (onMessage _ _ _ c); done. }
  unfold onMessage. wps. wps. apply wp_if; intros Hs.
  { apply Nat.eqb_eq in Hs. done. }
  wps. apply wp_receive. intros v h n Hm.
  destruct (materialize_ok _ _ _ _ _ _ Hwf Hm) as [X [f0 C]].
  destruct (clone_obj_inv _ _ _ _ (C f0 ltac:(lia))) as (? & l & ? & _ & -> & _).
  cbv beta iota. cbn [truthy].
  pose proof (clone_read _ _ _ _ _ _ C Hb) as Cb.
  destruct (clone_obj_inv _ _ _ _ (Cb f0 ltac:(lia))) as (? & lb & qps & _ & Eb & Hlb & _).
  rewrite Eb in Cb.
  pose proof (clone_str_inv _ _ _ _ (clone_read _ _ _ _ _ _ Cb Hty f0 ltac:(lia))) as Ety.
  pose proof (clone_read _ _ _ _ _ _ Cb Hdet) as Cd.
  destruct (clone_obj_inv _ _ _ _ (Cd f0 ltac:(lia))) as (? & ld & dps' & _ & Ed & Hld & _).
  rewrite Ed in Cd.
  wps. wps. cbn [mem set_mem]. rewrite Eb.
  wps. wps. cbn [mem set_mem]. rewrite Ety.
  wps. wps. cbn [mem set_mem]. rewrite Ed. cbn [truthy is_string andb].
  set (c1 := set_mem c h n).
  assert (W1 : wf c1) by (exact (extends_fresh _ _ _ _ Hwf X)).
  assert (Hlb1 : mem c1 !! lb = Some (mkobj qps None)) by exact Hlb.
  assert (Hld1 : mem c1 !! ld = Some (mkobj dps' None)) by exact Hld.
  assert (Cf1 : cfg c1 = cfg c /\ effects c1 = effects c) by done.
  assert (Dr1 : draws c1 = draws c) by done.
  assert (Cd1 : forall f, (f0 <= f)%nat -> clone f (mem c1) (VRef ld) = Some (WObj dps)) by exact Cd.
  assert (Ed1 : get_prop (mem c1) (VRef lb) (s2u "detail") = VRef ld) by exact Ed.
  assert (Tg1 : wget (s2u "target") qs = None -> get_prop (mem c1) (VRef lb) (s2u "target") = VUndef).
  { intros Hn. eapply clone_read_none; [exact Cb|done|keys]. }
  clearbody c1. clear Hm C Cb Cd.
  wps. wps.
  apply (wp_bind_via _ _ _ (fun r c2 => r = Ok tt /\ exists pre, c2 = add_effects c1 pre /\
           (pre = [] \/ exists a, pre = [Log a]))).
  { apply wp_if; intros _; [apply wp_log|apply wp_ret]; (split; [done|]).
    - exists [Log [quoted "received " (str_of (mem c) (VStr ty)) []]]. eauto.
    - exists []. rewrite add_effects_nil. auto. }
  intros r c2 [-> (pre & -> & Hpre)]. cbv beta iota.
  wps. apply wp_ret. cbv beta iota.
  wps. wps. wps. wps. wps. wps. wps. apply wp_alloc. cbv beta iota. wps. wps.
  cbn [mem set_mem add_effects next_loc].
  assert (Hn : lb <> next_loc c1) by (intros E; rewrite W1 in Hlb1 by lia; done).
  assert (Hn' : ld <> next_loc c1) by (intros E; rewrite W1 in Hld1 by lia; done).
  set (o := mkobj _ None).
  assert (Ko : props_kept (mem c1) (<[next_loc c1 := o]> (mem c1))) by (apply props_kept_alloc, W1; lia).
  rewrite (get_prop_kept _ _ _ _ Ko) by (done || eexists; done).
  rewrite Ed1. unfold wp. eexists _, ld, (next_loc c1), pre, f0. split; [symmetry; apply surjective_pairing|].
  cbn [cfg effects set_mem add_effects mem]. destruct Cf1 as [-> ->]. split; [done|].
  split.
  { intros l' Hl'. cbn in Hl' |- *. rewrite lookup_insert_ne by lia. apply W1. lia. }
  split; [done|]. split; [done|].
  split.
  { intros f Hf. eapply clone_mono; [|apply Cd1, Hf]. apply insert_subseteq. apply W1. lia. }
  split; [rewrite lookup_insert_ne by done; eexists; done|].
  split; [rewrite lookup_insert_eq; eexists; done|].
  split.
  - unfold get_prop. rewrite lookup_insert_eq. cbn. done.
  - split; [|exact Dr1].
    intros Ht. unfold get_prop at 1. rewrite lookup_insert_eq. cbn. apply Tg1, Ht.
Qed.

(** C1, counterexample (code bug): the root window, whose one child frame
    is 1, broadcasts ["ns:event"] with no target and [{encrypt: true}] on the data [{x: '€'}].
    It fires once locally; then [btoa] throws on the code unit 8364 before
    any [postMessage], so the child never fires. *)
Lemma c1_encrypted_broadcast_reaches_no_frame :
  let '(r, c') := broadcastEvent (str "ns:event") (VRef 0) (VRef 1)
                    (demo_ctx root_win [euro_data; obj [("encrypt", VBool true)]]) in
  r = Throw err_btoa /\ dispatches (effects c') = 1%nat /\ post_targets (effects c') = [].
Proof. vm_compute. auto. Qed.

(** C5, counterexample (code bug): a window with a parent (0) and a child (2)
    makes a non-suppressed encrypted broadcast of [{x: '€'}]; [btoa]
    throws, and the envelope is relayed to neither the parent nor the child. *)
Lemma c5_encrypted_broadcast_relays_nowhere :
  let '(r, c') := broadcastEvent (str "ns:event") (VRef 0) (VRef 1)
                    (demo_ctx mid_win [euro_data; obj [("encrypt", VBool true)]]) in
  r = Throw err_btoa /\ post_targets (effects c') = [].
Proof. vm_compute. auto. Qed.

(** C7, counterexample (code bug): for the payload [{x: '€'}] and the key
    ["key"], [encrypt] of the serialized payload throws in [btoa], so there is
    no ciphertext to decrypt. *)
Lemma c7_encrypt_rejects_non_latin1 :
  match json_stringify (heap_from 0 [euro_data]) (VRef 0) with
  | Ok (Some s) => encrypt s (str "key") = Throw err_btoa
  | _ => False
  end.
Proof. vm_compute. reflexivity. Qed.

(** C2, counterexample (code bug): with an empty cache and
    [_eventIds = ["toString"]], [recentEvents["toString"]] is the inherited
    [Object.prototype] method, so the check suppresses the broadcast although
    no cache entry is live: the call has no effect at all. *)
Lemma c2_prototype_name_suppresses :
  let c := demo_ctx root_win [mkobj [] (Some [str "toString"]); obj [("_eventIds", VRef 0)]] in
  recentEvents c = ∅ /\
  fst (alreadyBroadcast (s2u "ns:event") (VRef 0) c) = Ok true /\
  effects (snd (broadcastEvent (str "ns:event") VUndef (VRef 1) c)) = [].
Proof. vm_compute. auto. Qed.

(** C3, counterexample: the name ["noColonHere"] has no [':'], yet the call
    returns normally, fires locally and posts to the child frame 1. *)
Lemma c3_name_without_colon_fires :
  let '(r, c') := broadcastEvent (str "noColonHere") VUndef VUndef (demo_ctx root_win []) in
  r = Ok tt /\ dispatches (effects c') = 1%nat /\ post_targets (effects c') = [1%nat].
Proof. vm_compute. auto. Qed.



Lemma heap_from_fresh n objs l : (n + length objs <= l)%nat -> heap_from n objs !! l = None.
Proof.
  revert n. induction objs as [|o r IH]; intros n Hl; cbn; [done|].
  cbn in Hl. rewrite lookup_insert_ne by lia. apply IH. lia.
Qed.

Lemma demo_wf w objs : wf (demo_ctx w objs).
Proof. intros l Hl. apply heap_from_fresh. cbn in *. lia. Qed.

Lemma eqb_S_false k : Nat.eqb k (S k) = false.
Proof. apply Nat.eqb_neq. lia. Qed.

(** C3 (amended): the name is not checked. Truthy data that is not an
    object makes the call throw [eventData must be an object] at once,
    whatever the name, before any firing or relay; with no data and no
    options every name completes and fires locally under
    [String(name || '')]. *)
Theorem broadcastEvent_accepts_any_name n c :
  wf c ->
  let name := if truthy n then str_of (mem c) n else [] in
  (forall d o, truthy d = true -> is_object d = false ->
     broadcastEvent n d o c = (Throw err_not_object, c)) /\
  wp (broadcastEvent n VUndef VUndef) (fun r c' => r = Ok tt /\
     exists ld snap rest, effects c' = effects c ++ Dispatch name (VRef ld) snap :: rest) c.
Proof.
  intros Hwf name. split.
  { intros d o Ht Ho. unfold broadcastEvent, bind at 1. cbn [get_ctx]. rewrite Ht, Ho. done. }
  eapply wp_mono; [apply (bcast_spec n VUndef VUndef c Hwf I I (or_introl eq_refl) (or_introl eq_refl))|].
  cbv zeta. cbn [get_prop js_or truthy negb orb].
  intros r c' (ld & ei & es & _ & _ & _ & Ef & _ & _ & _ & _ & _ & Hei' & Hout).
  specialize (Hei' eq_refl).
  destruct Hout as [(_ & Dr & _)|[(_ & Dr & _)|(_ & rest & -> & Hrest)]]; [lia|lia|].
  destruct Hrest as [(_ & -> & _)|[(Hc & _)|(Hc & _)]]; [|done|done].
  split; [done|]. exists ld, (snapshot (mem c') (VRef ld)), rest. done.
Qed.

Lemma post_targets_fire (b : bool) e : (forall t ty d i m, e <> Post t ty d i m) ->
  post_targets (if b then [e] else []) = [].
Proof. intros H. destruct b; [|done]. destruct e; try done. exfalso. eapply H. done. Qed.

(** Extra for C5: a non-suppressed call that returns normally and whose
    detail and eventIds can be cloned posts to the parent when it is not the
    window itself, then to every frame other than the window itself, whether
    or not the window fired locally. *)
Theorem broadcastEvent_relays_to_tree n d o c :
  wf c -> alive (mem c) d -> alive (mem c) o ->
  (truthy d = false \/ is_object d = true) -> (truthy o = false \/ is_object o = true) ->
  wp (broadcastEvent n d o) (fun r c' => exists ld ei es,
    effects c' = effects c ++ es /\ (truthy d = true -> d = VRef ld) /\
    (r = Ok tt -> draws c' = S (draws c) ->
     is_Some (snapshot (mem c') (VRef ld)) -> is_Some (snapshot (mem c') ei) ->
     post_targets es =
       (if negb (Nat.eqb (parent (cfg c)) (self (cfg c))) then [parent (cfg c)] else []) ++
       List.filter (fun f => negb (Nat.eqb f (self (cfg c)))) (frames (cfg c)))) c.
Proof.
  intros Hwf Hd Ho Hdo Hoo.
  eapply wp_mono; [apply (bcast_spec n d o c Hwf Hd Ho Hdo Hoo)|].
  cbv zeta. intros r c' (ld & ei & es & _ & _ & _ & Ef & _ & Hd' & _ & _ & _ & _ & Hout).
  exists ld, ei, es. split; [done|]. split; [done|]. intros Hr Dr [wd Hwd] [wi Hwi].
  destruct Hout as [(_ & Dr' & _)|[(_ & Dr' & _)|(_ & rest & -> & Hrest)]]; [lia|lia|].
  rewrite post_targets_app, post_targets_fire by done. cbn [app].
  destruct Hrest as [(_ & _ & ->)|[(_ & v & s & ct & _ & -> & _ & _ & ->)|(_ & e & -> & _)]].
  - apply (relay_effects_targets _ _ _ _ _ _ wd wi); done.
  - apply (relay_effects_targets _ _ _ _ _ _ (WStr (s2u "BE:" ++ ct ++ s2u ":" ++
             str_of (mem c') (get_prop (mem c') (VRef ld) (s2u "_originId")))) wi); done.
  - done.
Qed.

(** C8: with [options.encrypt] truthy, the only local dispatch carries the
    data object itself (its plaintext clone), and comes before every other
    effect; each relayed envelope's detail is the string
    ["BE:" ++ encrypt(JSON.stringify(data), key) ++ ":" ++ key], where the key is
    [data._originId]. *)
Theorem broadcastEvent_encrypts_after_local_fire n d o c :
  wf c -> alive (mem c) d -> alive (mem c) o ->
  (truthy d = false \/ is_object d = true) -> (truthy o = false \/ is_object o = true) ->
  truthy (get_prop (mem c) o (s2u "encrypt")) = true ->
  wp (broadcastEvent n d o) (fun r c' => exists ld pre rest,
    effects c' = effects c ++ pre ++ rest /\
    (truthy d = true -> d = VRef ld) /\
    (pre = [] \/ exists nm, pre = [Dispatch nm (VRef ld) (snapshot (mem c') (VRef ld))]) /\
    dispatches rest = 0%nat /\
    forall t ty dv i m, In (Post t ty dv i m) rest ->
      exists s ct, json_stringify (mem c') (VRef ld) = Ok (Some s) /\
        encrypt s (get_prop (mem c') (VRef ld) (s2u "_originId")) = Ok ct /\
        dv = VStr (s2u "BE:" ++ ct ++ s2u ":" ++
                   str_of (mem c') (get_prop (mem c') (VRef ld) (s2u "_originId")))) c.
Proof.
  intros Hwf Hd Ho Hdo Hoo Henc.
  eapply wp_mono; [apply (bcast_spec n d o c Hwf Hd Ho Hdo Hoo)|].
  cbv zeta. intros r c' (ld & ei & es & _ & _ & _ & Ef & _ & Hd' & _ & _ & _ & _ & Hout).
  exists ld.
  destruct Hout as [(_ & _ & ->)|[(_ & _ & ->)|(_ & rest & -> & Hrest)]].
  - exists [], []. rewrite Ef. repeat split; auto. intros ? ? ? ? ? [].
  - exists [], (if strict_eq (get_prop (mem c) o (s2u "debug")) (VBool true)
                then [Log [quoted "suppressed " (if truthy n then str_of (mem c) n else []) []]]
                else []).
    rewrite Ef. repeat split; auto.
    + destruct (strict_eq _ _); done.
    + intros t ty dv i m. destruct (strict_eq _ _); [intros [H|[]]; done|intros []].
  - eexists _, rest. split; [exact Ef|]. split; [done|]. split.
    { match goal with |- context [if ?b then _ else _] => destruct b end; eauto. }
    destruct Hrest as [(He & _)|[(_ & v & s & ct & _ & -> & Hs & Hct & ->)|(_ & e & _ & ->)]].
    + rewrite Henc in He. done.
    + split; [apply relay_effects_dispatches|].
      intros t ty dv i m Hin.
      destruct (relay_effects_shape _ _ _ _ _ _ _ Hin) as [(t' & wd & wi & [= _ _ Hdv _ _] & _)|(a & ?)];
        [|done].
      exists s, ct. rewrite Hdv. auto.
    + split; [done|]. intros ? ? ? ? ? [].
Qed.

(** C10: a call with a data object [l] leaves on that very object an own
    [_originId] (the window's originId when the old value was falsy, else the
    old value) and an own [_targetId]; every relayed envelope carries as
    eventIds the one array [ei], which is [options._eventIds] when that is
    truthy. *)
Theorem broadcastEvent_mutates_caller_data n l o c :
  wf c -> is_Some (mem c !! l) -> alive (mem c) o -> (truthy o = false \/ is_object o = true) ->
  let oid := get_prop (mem c) (VRef l) (s2u "_originId") in
  let tid := js_or (get_prop (mem c) (VRef l) (s2u "_targetId")) (get_prop (mem c) o (s2u "target")) in
  let ids := get_prop (mem c) o (s2u "_eventIds") in
  wp (broadcastEvent n (VRef l) o) (fun r c' => exists ei es,
    effects c' = effects c ++ es /\
    own (mem c') l (s2u "_originId") = Some (if truthy oid then oid else VStr (originId (cfg c))) /\
    own (mem c') l (s2u "_targetId") = Some tid /\
    (truthy ids = true -> ei = ids) /\
    forall t ty dv i m, In (Post t ty dv i m) es -> i = ei) c.
Proof.
  intros Hwf Hl Ho Hoo oid tid ids.
  eapply wp_mono; [apply (bcast_spec n (VRef l) o c Hwf Hl Ho (or_intror eq_refl) Hoo)|].
  cbv zeta. intros r c' (ld & ei & es & _ & _ & _ & Ef & _ & Hd' & Hoid & Htid & Hei & _ & Hout).
  specialize (Hd' eq_refl). injection Hd' as <-.
  exists ei, es. do 4 (split; [done|]).
  intros t ty dv i m Hin.
  destruct Hout as [(_ & _ & ->)|[(_ & _ & ->)|(_ & rest & -> & Hrest)]].
  - done.
  - destruct (strict_eq _ _); simpl in Hin; intuition congruence.
  - apply in_app_iff in Hin as [Hin|Hin].
    { destruct (_ || _); simpl in Hin; intuition congruence. }
    destruct Hrest as [(_ & _ & ->)|[(_ & v & s & ct & _ & -> & _)|(_ & e & _ & ->)]]; [..|done];
    destruct (relay_effects_shape _ _ _ _ _ _ _ Hin) as [(t' & wd & wi & [= _ _ _ -> _] & _)|(a & ?)];
    done.
Qed.

Lemma cache_has_own r k : in_object_proto k = false -> cache_has r k = bool_decide (is_Some (r !! k)).
Proof.
  intros Hp. unfold cache_has. destruct (r !! k); [|done].
  rewrite bool_decide_eq_true_2; [done|eexists; done].
Qed.

(** Extra for C2: when no id of the eventIds array names a member of
    [Object.prototype] and the new token is not ["__proto__"], the check
    suppresses iff some id is a key of the purged cache. On suppress, only
    the purge happens. On proceed, exactly the new token is appended to the
    array, it is recorded in the cache with the current time, and one token
    is drawn. *)
Theorem alreadyBroadcast_decides ty l ps ids c :
  mem c !! l = Some (mkobj ps (Some ids)) ->
  Forall (fun id => in_object_proto (str_of (mem c) id) = false) ids ->
  let r := purge (clock c) (recentEvents c) in
  let tok := token (cfg c) ty (draws c) in
  tok <> s2u "__proto__" ->
  let '(res, c') := alreadyBroadcast ty (VRef l) c in
  (res = Ok true \/ res = Ok false) /\
  (res = Ok true <-> Exists (fun id => is_Some (r !! str_of (mem c) id)) ids) /\
  (res = Ok true -> mem c' = mem c /\ draws c' = draws c /\ recentEvents c' = r) /\
  (res = Ok false ->
     mem c' !! l = Some (mkobj ps (Some (ids ++ [VStr tok]))) /\
     (forall l', l' <> l -> mem c' !! l' = mem c !! l') /\
     draws c' = S (draws c) /\ recentEvents c' = <[tok := clock c]> r) /\
  cfg c' = cfg c /\ clock c' = clock c /\ effects c' = effects c.
Proof.
  intros Hl Hp r tok Htok. unfold alreadyBroadcast. cbv zeta. cbn [mem set_recent]. rewrite Hl.
  assert (Hex : existsb (fun id => cache_has r (str_of (mem c) id)) ids = true <->
                Exists (fun id => is_Some (r !! str_of (mem c) id)) ids).
  { rewrite existsb_exists, List.Exists_exists. split.
    - intros (x & Hx & Hc). exists x. split; [done|].
      rewrite cache_has_own in Hc by (apply (proj1 (List.Forall_forall _ _) Hp); done).
      apply bool_decide_eq_true_1 in Hc. done.
    - intros (x & Hx & Hc). exists x. split; [done|].
      rewrite cache_has_own by (apply (proj1 (List.Forall_forall _ _) Hp); done). apply bool_decide_eq_true_2. done. }
  fold r. destruct (existsb _ ids) eqn:E; cbn.
  - split; [left; done|]. split; [split; [intros _; apply Hex; done|done]|].
    split; [done|]. split; [discriminate|]. done.
  - split; [right; done|].
    split; [split; [discriminate|intros Hc; apply Hex in Hc; congruence]|].
    split; [discriminate|]. split; [|done]. intros _.
    split; [rewrite lookup_insert_eq; done|].
    split; [intros l' Hl'; rewrite lookup_insert_ne; done|]. split; [done|].
    + unfold cache_put. rewrite bool_decide_eq_false_2 by done. done.
Qed.

Lemma alreadyBroadcast_decides_witness :
  let c := demo_ctx root_win [mkobj [] (Some [str "abc"])] in
  mem c !! 0%nat = Some (mkobj [] (Some [str "abc"])) /\
  Forall (fun id => in_object_proto (str_of (mem c) id) = false) [str "abc"] /\
  token (cfg c) (s2u "ns:e") (draws c) <> s2u "__proto__" /\
  let '(res, c') := alreadyBroadcast (s2u "ns:e") (VRef 0) c in
  (res = Ok true \/ res = Ok false) /\
  (res = Ok true <-> Exists (fun id => is_Some (purge (clock c) (recentEvents c) !! str_of (mem c) id)) [str "abc"]) /\
  (res = Ok true -> mem c' = mem c /\ draws c' = draws c /\ recentEvents c' = purge (clock c) (recentEvents c)) /\
  (res = Ok false ->
     mem c' !! 0%nat = Some (mkobj [] (Some ([str "abc"] ++ [VStr (token (cfg c) (s2u "ns:e") (draws c))]))) /\
     (forall l', l' <> 0%nat -> mem c' !! l' = mem c !! l') /\
     draws c' = S (draws c) /\
     recentEvents c' = <[token (cfg c) (s2u "ns:e") (draws c) := clock c]> (purge (clock c) (recentEvents c))) /\
  cfg c' = cfg c /\ clock c' = clock c /\ effects c' = effects c.
Proof.
  cbv zeta.
  assert (H1 : mem (demo_ctx root_win [mkobj [] (Some [str "abc"])]) !! 0%nat =
               Some (mkobj [] (Some [str "abc"]))) by reflexivity.
  assert (H2 : Forall (fun id => in_object_proto
                 (str_of (mem (demo_ctx root_win [mkobj [] (Some [str "abc"])])) id) = false)
                 [str "abc"]) by (constructor; [vm_compute; reflexivity|constructor]).
  assert (H3 : token (cfg (demo_ctx root_win [mkobj [] (Some [str "abc"])])) (s2u "ns:e")
                 (draws (demo_ctx root_win [mkobj [] (Some [str "abc"])])) <> s2u "__proto__")
    by (vm_compute; congruence).
  split; [exact H1|]. split; [exact H2|]. split; [exact H3|].
  exact (alreadyBroadcast_decides (s2u "ns:e") 0%nat [] [str "abc"] _ H1 H2 H3).
Defined.

Lemma broadcastEvent_accepts_any_name_witness :
  wf (demo_ctx root_win []) /\
  (forall d o, truthy d = true -> is_object d = false ->
     broadcastEvent (str "noColonHere") d o (demo_ctx root_win []) = (Throw err_not_object, demo_ctx root_win [])) /\
  wp (broadcastEvent (str "noColonHere") VUndef VUndef) (fun r c' => r = Ok tt /\
     exists ld snap rest, effects c' = effects (demo_ctx root_win []) ++
                                       Dispatch (s2u "noColonHere") (VRef ld) snap :: rest)
     (demo_ctx root_win []).
Proof.
  split; [apply demo_wf|].
  exact (broadcastEvent_accepts_any_name (str "noColonHere") (demo_ctx root_win []) (demo_wf _ _)).
Defined.

Lemma broadcastEvent_relays_to_tree_witness :
  let c := demo_ctx mid_win [] in
  wf c /\
  wp (broadcastEvent (str "ns:e") VUndef VUndef) (fun r c' => exists ld ei es,
    effects c' = effects c ++ es /\ (truthy VUndef = true -> VUndef = VRef ld) /\
    (r = Ok tt -> draws c' = S (draws c) ->
     is_Some (snapshot (mem c') (VRef ld)) -> is_Some (snapshot (mem c') ei) ->
     post_targets es =
       (if negb (Nat.eqb (parent mid_win) (self mid_win)) then [parent mid_win] else []) ++
       List.filter (fun f => negb (Nat.eqb f (self mid_win))) (frames mid_win))) c.
Proof.
  cbv zeta. split; [apply demo_wf|].
  exact (broadcastEvent_relays_to_tree (str "ns:e") VUndef VUndef _ (demo_wf _ _) I I
           (or_introl eq_refl) (or_introl eq_refl)).
Defined.

Lemma broadcastEvent_encrypts_after_local_fire_witness :
  let c := demo_ctx root_win [obj [("x", str "a")]; obj [("encrypt", VBool true)]] in
  wf c /\ alive (mem c) (VRef 0) /\ alive (mem c) (VRef 1) /\
  truthy (get_prop (mem c) (VRef 1) (s2u "encrypt")) = true /\
  wp (broadcastEvent (str "ns:e") (VRef 0) (VRef 1)) (fun r c' => exists ld pre rest,
    effects c' = effects c ++ pre ++ rest /\
    (truthy (VRef 0) = true -> VRef 0 = VRef ld) /\
    (pre = [] \/ exists nm, pre = [Dispatch nm (VRef ld) (snapshot (mem c') (VRef ld))]) /\
    dispatches rest = 0%nat /\
    forall t ty dv i m, In (Post t ty dv i m) rest ->
      exists s ct, json_stringify (mem c') (VRef ld) = Ok (Some s) /\
        encrypt s (get_prop (mem c') (VRef ld) (s2u "_originId")) = Ok ct /\
        dv = VStr (s2u "BE:" ++ ct ++ s2u ":" ++
                   str_of (mem c') (get_prop (mem c') (VRef ld) (s2u "_originId")))) c.
Proof.
  cbv zeta.
  assert (Hd : alive (mem (demo_ctx root_win [obj [("x", str "a")]; obj [("encrypt", VBool true)]])) (VRef 0))
    by (eexists; reflexivity).
  assert (Ho : alive (mem (demo_ctx root_win [obj [("x", str "a")]; obj [("encrypt", VBool true)]])) (VRef 1))
    by (eexists; reflexivity).
  assert (He : truthy (get_prop (mem (demo_ctx root_win [obj [("x", str "a")]; obj [("encrypt", VBool true)]]))
                 (VRef 1) (s2u "encrypt")) = true) by (vm_compute; reflexivity).
  split; [apply demo_wf|]. split; [exact Hd|]. split; [exact Ho|]. split; [exact He|].
  exact (broadcastEvent_encrypts_after_local_fire (str "ns:e") (VRef 0) (VRef 1) _ (demo_wf _ _) Hd Ho
           (or_intror eq_refl) (or_intror eq_refl) He).
Defined.

Lemma broadcastEvent_mutates_caller_data_witness :
  let c := demo_ctx root_win [obj [("x", str "a")]] in
  wf c /\ is_Some (mem c !! 0%nat) /\
  wp (broadcastEvent (str "ns:e") (VRef 0) VUndef) (fun r c' => exists ei es,
    effects c' = effects c ++ es /\
    own (mem c') 0%nat (s2u "_originId") =
      Some (if truthy (get_prop (mem c) (VRef 0) (s2u "_originId"))
            then get_prop (mem c) (VRef 0) (s2u "_originId") else VStr (originId root_win)) /\
    own (mem c') 0%nat (s2u "_targetId") =
      Some (js_or (get_prop (mem c) (VRef 0) (s2u "_targetId")) (get_prop (mem c) VUndef (s2u "target"))) /\
    (truthy (get_prop (mem c) VUndef (s2u "_eventIds")) = true -> ei = get_prop (mem c) VUndef (s2u "_eventIds")) /\
    forall t ty dv i m, In (Post t ty dv i m) es -> i = ei) c.
Proof.
  cbv zeta.
  assert (Hl : is_Some (mem (demo_ctx root_win [obj [("x", str "a")]]) !! 0%nat)) by (eexists; reflexivity).
  split; [apply demo_wf|]. split; [exact Hl|].
  exact (broadcastEvent_mutates_caller_data (str "ns:e") 0%nat VUndef _ (demo_wf _ _) Hl I (or_introl eq_refl)).
Defined.

Lemma onMessage_decrypt_failure_witness :
  let ps := [(s2u "_broadcast", WObj [(s2u "type", WStr (s2u "ns:e")); (s2u "detail", WStr (s2u "BE:!!!:k"))])] in
  let qs := [(s2u "type", WStr (s2u "ns:e")); (s2u "detail", WStr (s2u "BE:!!!:k"))] in
  let c := demo_ctx root_win [] in
  wf c /\ 5%nat <> self (cfg c) /\
  exists c' opts pre, onMessage (fun _ => None) 5 (WObj ps) c = broadcastEvent (VStr (s2u "ns:e")) VNull opts c' /\
    cfg c' = cfg c /\ wf c' /\
    effects c' = effects c ++ pre ++ [Log [s2u "Failed to decrypt event data"]] /\
    (pre = [] \/ exists a, pre = [Log a]).
Proof.
  cbv zeta. split; [apply demo_wf|]. split; [vm_compute; congruence|].
  apply (onMessage_decrypt_failure (fun _ => None) 5
           [(s2u "_broadcast", WObj [(s2u "type", WStr (s2u "ns:e")); (s2u "detail", WStr (s2u "BE:!!!:k"))])]
           [(s2u "type", WStr (s2u "ns:e")); (s2u "detail", WStr (s2u "BE:!!!:k"))]
           (s2u "ns:e") (s2u "BE:!!!:k") (demo_ctx root_win [])).
  - apply demo_wf.
  - vm_compute. congruence.
  - vm_compute. reflexivity.
  - vm_compute. reflexivity.
  - vm_compute. reflexivity.
  - vm_compute. reflexivity.
  - vm_compute. exact I.
Defined.

Lemma latin1_of_forallb s : forallb (fun c => (0 <=? c) && (c <=? 255)) s = true -> latin1 s.
Proof.
  induction s as [|x r IH]; cbn; intros H; [constructor|].
  apply andb_prop in H as [Hx Hr]. apply andb_prop in Hx as [H0 H1].
  constructor; [split; [apply Z.leb_le; done|apply Z.leb_le; done]|apply IH, Hr].
Qed.

Lemma encrypt_decrypt_latin1_witness :
  s2u "root" <> [] /\ latin1 (s2u "root") /\ latin1 (s2u "{}") /\
  exists ct, encrypt (s2u "{}") (VStr (s2u "root")) = Ok ct /\ decrypt ct (VStr (s2u "root")) = Ok (s2u "{}").
Proof.
  assert (H1 : s2u "root" <> []) by discriminate.
  assert (H2 : latin1 (s2u "root")) by (apply latin1_of_forallb; vm_compute; reflexivity).
  assert (H3 : latin1 (s2u "{}")) by (apply latin1_of_forallb; vm_compute; reflexivity).
  split; [exact H1|]. split; [exact H2|]. split; [exact H3|].
  exact (encrypt_decrypt_latin1 (s2u "{}") (s2u "root") H1 H2 H3).
Defined.

(** * Further properties of the code *)

Lemma digit36_ok d : 0 <= d < 36 -> is_digit36 (digit36 d) = true /\ digit36_value (digit36 d) = d.
Proof. intros Hd. unfold is_digit36, digit36_value, digit36. zbool; cbn; split; lia. Qed.

Lemma radix36_digits fuel n acc :
  0 <= n -> forallb is_digit36 acc = true -> forallb is_digit36 (radix36 fuel n acc) = true.
Proof.
  revert n acc; induction fuel as [|f IH]; intros n acc Hn Ha; cbn [radix36]; [done|].
  destruct (Z.ltb_spec n 36).
  - cbn. rewrite (proj1 (digit36_ok n ltac:(lia))). done.
  - apply IH; [apply Z.div_pos; lia|]. cbn.
    rewrite (proj1 (digit36_ok (n mod 36) ltac:(apply Z.mod_pos_bound; lia))). done.
Qed.

Lemma radix36_length fuel n acc k :
  0 <= n -> n < 36 ^ Z.of_nat k -> (1 <= fuel)%nat -> (1 <= k)%nat ->
  (S (length acc) <= length (radix36 fuel n acc) <= k + length acc)%nat.
Proof.
  revert n acc k; induction fuel as [|f IH]; intros n acc k Hn Hk Hf Hk1; [lia|]. cbn [radix36].
  destruct k as [|k]; [lia|].
  destruct (Z.ltb_spec n 36); [cbn; lia|].
  destruct f as [|f]; [|].
  - cbn. (* fuel exhausted after one digit *) lia.
  - assert (Hk' : n / 36 < 36 ^ Z.of_nat k).
    { apply Z.div_lt_upper_bound; [lia|]. rewrite Nat2Z.inj_succ, Z.pow_succ_r in Hk by lia. lia. }
    assert (Hk1' : (1 <= k)%nat).
    { destruct k; [|lia]. cbn in Hk'. pose proof (Z.div_le_lower_bound n 36 1). lia. }
    specialize (IH (n / 36) (digit36 (n mod 36) :: acc) k ltac:(apply Z.div_pos; lia) Hk' ltac:(lia) Hk1').
    cbn [length] in IH. lia.
Qed.

Lemma radix36_value fuel n acc a :
  0 <= n -> n < 36 ^ Z.of_nat fuel ->
  exists m : nat, fold_left (fun acc c => acc * 36 + digit36_value c) (radix36 fuel n acc) a =
            fold_left (fun acc c => acc * 36 + digit36_value c) acc (a * 36 ^ Z.of_nat m + n).
Proof.
  revert n acc a; induction fuel as [|f IH]; intros n acc a Hn Hf.
  { exists 0%nat. cbn in Hf |- *. f_equal. lia. }
  cbn [radix36].
  destruct (Z.ltb_spec n 36).
  - exists 1%nat. cbn [fold_left]. rewrite (proj2 (digit36_ok n ltac:(lia))). f_equal; rewrite ?Z.pow_1_r; lia.
  - assert (Hf' : n / 36 < 36 ^ Z.of_nat f).
    { apply Z.div_lt_upper_bound; [lia|]. rewrite Nat2Z.inj_succ, Z.pow_succ_r in Hf by lia. lia. }
    destruct (IH (n / 36) (digit36 (n mod 36) :: acc) a ltac:(apply Z.div_pos; lia) Hf') as [m E].
    exists (S m). rewrite E. cbn [fold_left].
    rewrite (proj2 (digit36_ok (n mod 36) ltac:(apply Z.mod_pos_bound; lia))). f_equal.
    rewrite Nat2Z.inj_succ, Z.pow_succ_r by lia.
    pose proof (Z.div_mod n 36 ltac:(lia)). lia.
Qed.

Lemma of_base36_to_base36 n : 0 <= n < 2 ^ 32 -> of_base36 (to_base36 n) = n.
Proof.
  intros Hn. unfold of_base36, to_base36.
  destruct (radix36_value 64 n [] 0 ltac:(lia)) as [m E].
  { eapply Z.lt_le_trans; [apply Hn|]. apply Z.le_trans with (36 ^ 32); [apply Z.pow_le_mono_l; lia|].
    apply Z.pow_le_mono_r; lia. }
  rewrite E. cbn. lia.
Qed.

Lemma to_base36_shape n : 0 <= n < 2 ^ 32 ->
  forallb is_digit36 (to_base36 n) = true /\ (1 <= length (to_base36 n) <= 7)%nat.
Proof.
  intros Hn. split; [apply radix36_digits; [lia|done]|].
  assert (H7 : n < 36 ^ Z.of_nat 7).
  { change (36 ^ Z.of_nat 7) with 78364164096. change (2 ^ 32) with 4294967296 in Hn. lia. }
  pose proof (radix36_length 64 n [] 7 ltac:(lia) H7 ltac:(lia) ltac:(lia)).
  cbn [length] in *. unfold to_base36. lia.
Qed.

Lemma to_uint32_range x : 0 <= to_uint32 x < 2 ^ 32.
Proof. unfold to_uint32. apply Z.mod_pos_bound. lia. Qed.

Lemma digit36_char c : is_digit36 c = true -> 0 <= c <= 255 /\ c <> 58.
Proof. unfold is_digit36. zbool; cbn; intros; try discriminate; lia. Qed.

Lemma proto_names_long_or_cased :
  forallb (fun k => (7 <? length k)%nat || negb (forallb is_digit36 k)) object_proto_names = true.
Proof. vm_compute. reflexivity. Qed.

Lemma stringHash_shape input :
  let n := to_uint32 (fold_left hash_step input fnv_offset) in
  of_base36 (stringHash input) = n /\
  forallb is_digit36 (stringHash input) = true /\
  (1 <= length (stringHash input) <= 7)%nat /\
  ~ In 58 (stringHash input) /\ in_object_proto (stringHash input) = false.
Proof.
  cbv zeta. unfold stringHash.
  pose proof (to_uint32_range (fold_left hash_step input fnv_offset)) as Hr.
  rewrite Z.abs_eq by lia.
  set (n := to_uint32 _) in *. set (k := to_base36 n).
  destruct (to_base36_shape n Hr) as [Hd Hl]. fold k in Hd, Hl.
  split; [apply of_base36_to_base36; done|]. split; [done|]. split; [done|]. split.
  - intros Hin. apply forallb_forall with (x := 58) in Hd; [|done].
    apply digit36_char in Hd. lia.
  - unfold in_object_proto. apply bool_decide_eq_false_2. intros Hk.
    pose proof proto_names_long_or_cased as P. apply forallb_forall with (x := k) in P.
    + rewrite Hd in P. change (negb true) with false in P. rewrite orb_false_r in P. apply Nat.ltb_lt in P. lia.
    + apply list_elem_of_In. done.
Qed.

(** *** The wire format of an encrypted detail *)

Lemma split_on_sep sep w r : ~ In sep w -> split_on sep (w ++ sep :: r) = w :: split_on sep r.
Proof.
  induction w as [|c w IH]; intros Hw; cbn.
  - rewrite Z.eqb_refl. done.
  - destruct (Z.eqb_spec c sep); [subst; exfalso; apply Hw; left; done|].
    rewrite IH by (intros H; apply Hw; right; done). done.
Qed.

Lemma split_on_none sep w : ~ In sep w -> split_on sep w = [w].
Proof.
  induction w as [|c w IH]; intros Hw; cbn; [done|].
  destruct (Z.eqb_spec c sep); [subst; exfalso; apply Hw; left; done|].
  rewrite IH by (intros H; apply Hw; right; done). done.
Qed.

Lemma b64_char_not_colon n : 0 <= n < 64 -> b64_char n <> 58.
Proof. intros Hn. unfold b64_char. zbool; lia. Qed.

Lemma b64_encode_no_colon l : latin1 l -> ~ In 58 (b64_encode l).
Proof.
  intros Hl. rewrite b64_encode_split. rewrite in_app_iff. intros [H|H].
  - apply in_map_iff in H as (n & Hn & Hin).
    pose proof (sextets_range l Hl) as R. rewrite List.Forall_forall in R.
    apply (b64_char_not_colon n (R n Hin)). done.
  - unfold b64_pad in H. destruct (length l mod 3)%nat as [|[|[|]]]; cbn in H; intuition lia.
Qed.

Lemma key_char_nonneg k i : Forall (fun c => 0 <= c) k -> 0 <= key_char k i.
Proof.
  intros Hk. unfold key_char. destruct (nth_in_or_default (i mod length k) k 0) as [H|H]; [|rewrite H; lia].
  rewrite List.Forall_forall in Hk. apply Hk, H.
Qed.

Lemma lxor_nn a b : 0 <= a -> 0 <= b -> 0 <= Z.lxor a b.
Proof. intros. apply Z.lxor_nonneg. split; intros; assumption. Qed.

Lemma xor_mix_nonneg k i s :
  Forall (fun c => 0 <= c) k -> Forall (fun c => 0 <= c) s -> Forall (fun c => 0 <= c) (xor_mix k i s).
Proof.
  intros Hk Hs. revert i. induction Hs as [|c r Hc Hr IH]; intros i; cbn; constructor; [|apply IH].
  apply lxor_nn; [apply lxor_nn; [lia|apply key_char_nonneg, Hk]|lia].
Qed.

Lemma forallb_le_latin1 l : Forall (fun c => 0 <= c) l -> forallb (fun c => c <=? 255) l = true -> latin1 l.
Proof.
  intros H0 H1. unfold latin1. rewrite List.Forall_forall in *. intros x Hx.
  rewrite forallb_forall in H1. specialize (H1 x Hx). specialize (H0 x Hx). apply Z.leb_le in H1. lia.
Qed.

Lemma wire_round_trip s k ct :
  Forall (fun c => 0 <= c) s -> Forall (fun c => 0 <= c) k -> k <> [] -> ~ In 58 k ->
  encrypt s (VStr k) = Ok ct ->
  let d := s2u "BE:" ++ ct ++ s2u ":" ++ k in
  starts_with (s2u "BE:") d = true /\ part d 1 = VStr ct /\ part d 2 = VStr k /\
  decrypt ct (VStr k) = Ok s.
Proof.
  intros Hs Hk Hk0 Hkc He. cbv zeta.
  assert (Ht : truthy (VStr k) = true).
  { cbn. rewrite bool_decide_eq_false_2 by done. done. }
  assert (Hct : ~ In 58 ct /\ decrypt ct (VStr k) = Ok s).
  { unfold encrypt in He. rewrite Ht in He. cbn [negb] in He.
    destruct s as [|c r].
    - injection He as <-. split; [intros []|]. unfold decrypt. rewrite Ht. reflexivity.
    - assert (Hx : xor_mix k 0 (c :: r) <> []) by (intros H; apply xor_mix_nil in H; discriminate).
      assert (Hl0 : Forall (fun c => 0 <= c) (xor_mix k 0 (c :: r))) by (apply xor_mix_nonneg; done).
      assert (Hinv : xor_mix k 0 (xor_mix k 0 (c :: r)) = c :: r) by apply xor_mix_involutive.
      revert He Hx Hl0 Hinv. generalize (xor_mix k 0 (c :: r)) as x. intros x He Hx Hl0 Hinv.
      unfold btoa in He. destruct (forallb _ x) eqn:Hf; [|discriminate]. injection He as <-.
      assert (Hl : latin1 x) by (apply forallb_le_latin1; done).
      split; [apply b64_encode_no_colon, Hl|].
      unfold decrypt. rewrite Ht. cbn [negb]. rewrite atob_b64_encode by exact Hl.
      destruct x as [|y x']; [done|]. rewrite Hinv. done. }
  destruct Hct as [Hct Hdec].
  assert (Hsplit : split_on 58 (s2u "BE:" ++ ct ++ s2u ":" ++ k) = [s2u "BE"; ct; k]).
  { change (s2u "BE:" ++ ct ++ s2u ":" ++ k) with ([66; 69] ++ 58 :: (ct ++ 58 :: k)).
    rewrite split_on_sep by (cbn; lia). rewrite split_on_sep by exact Hct.
    rewrite split_on_none by exact Hkc. done. }
  unfold part. rewrite Hsplit. split; [reflexivity|]. split; [reflexivity|]. split; [reflexivity|]. exact Hdec.
Qed.

(** Extra (lines 70-75, 190-221, 240-250): for a key and a plaintext of
    non-negative code units, with a non-empty key free of [':'], the wire
    string ['BE:' + ct + ':' + key] built by [broadcastEvent] starts with
    ['BE:'], its [split(':')] gives back [ct] and the key as parts 1 and 2,
    and [decrypt] of them restores the plaintext. *)
Theorem encrypted_detail_round_trip s k ct :
  Forall (fun c => 0 <= c) s -> Forall (fun c => 0 <= c) k -> k <> [] -> ~ In 58 k ->
  encrypt s (VStr k) = Ok ct ->
  let d := s2u "BE:" ++ ct ++ s2u ":" ++ k in
  starts_with (s2u "BE:") d = true /\ part d 1 = VStr ct /\ part d 2 = VStr k /\
  decrypt ct (VStr k) = Ok s.
Proof. exact (wire_round_trip s k ct). Qed.

Lemma encrypted_detail_round_trip_witness :
  let d := s2u "BE:" ++ [67; 82; 77; 61] ++ s2u ":" ++ s2u "root" in
  starts_with (s2u "BE:") d = true /\ part d 1 = VStr [67; 82; 77; 61] /\
  part d 2 = VStr (s2u "root") /\ decrypt [67; 82; 77; 61] (VStr (s2u "root")) = Ok (s2u "{}").
Proof.
  apply (encrypted_detail_round_trip (s2u "{}") (s2u "root") [67; 82; 77; 61]).
  - repeat constructor; cbn; lia.
  - repeat constructor; cbn; lia.
  - discriminate.
  - vm_compute. intuition discriminate.
  - vm_compute. reflexivity.
Defined.

Lemma clone_kind f h x w : clone f h x = Some w ->
  truthy x = wtruthy w /\
  is_string x = match w with WStr _ => true | _ => false end /\
  is_object x = match w with WObj _ | WArr _ => true | _ => false end.
Proof.
  destruct f as [|f], x as [| | | | |l]; try (cbn; intros [= <-]; done); try (cbn; congruence).
  rewrite clone_ref.
  destruct (h !! l) as [[ps [es|]]|]; [destruct (clone_items f h es)|destruct (clone_members f h ps)|];
    try congruence; intros [= <-]; done.
Qed.

Lemma envelope_check_nonobj h b :
  is_object b = false ->
  truthy b && is_string (get_prop h b (s2u "type")) && truthy (get_prop h b (s2u "detail")) = false.
Proof. destruct b; cbn; rewrite ?andb_false_r; done. Qed.

Lemma envelope_check_fails w h0 n0 v h n :
  fresh_from h0 n0 -> materialize w h0 n0 = (v, h, n) -> not_envelope w = true ->
  let b := if truthy v then get_prop h v (s2u "_broadcast") else v in
  truthy b && is_string (get_prop h b (s2u "type")) && truthy (get_prop h b (s2u "detail")) = false.
Proof.
  intros F Hm Hne. cbv zeta.
  destruct w as [| | bb | z | s | ps | es].
  1-5: cbn in Hm; injection Hm as <- <- <-; apply envelope_check_nonobj;
       destruct (truthy _); done.
  2:{ rewrite materialize_arr in Hm. destruct (mat_items es h0 (S n0)) as [[vs h2] n2].
      injection Hm as <- <- <-. cbn [truthy].
      assert (E : get_prop (<[n0 := mkobj [] (Some vs)]> h2) (VRef n0) (s2u "_broadcast") = VUndef).
      { unfold get_prop. rewrite lookup_insert_eq. cbn [props elems assoc]. keys. }
      rewrite E. done. }
  destruct (materialize_ok _ _ _ _ _ _ F Hm) as [_ [f0 C]].
  destruct (clone_obj_inv _ _ _ _ (C f0 ltac:(lia))) as (? & l & ? & _ & -> & _).
  cbn [truthy]. cbn [not_envelope] in Hne.
  destruct (wget (s2u "_broadcast") ps) as [wb|] eqn:Hb.
  2:{ rewrite (clone_read_none _ _ _ _ _ C Hb) by keys. done. }
  pose proof (clone_read _ _ _ _ _ _ C Hb) as Cb.
  destruct (clone_kind _ _ _ _ (Cb f0 ltac:(lia))) as (_ & _ & Kb).
  destruct wb as [| | | | | qs | es]; try (apply envelope_check_nonobj; rewrite Kb; done); try done.
  destruct (wget (s2u "type") qs) as [wt|] eqn:Ht.
  2:{ rewrite (clone_read_none _ _ _ _ _ Cb Ht) by keys. apply andb_false_intro1, andb_false_intro2. done. }
  destruct (clone_kind _ _ _ _ (clone_read _ _ _ _ _ _ Cb Ht f0 ltac:(lia))) as (_ & St & _).
  rewrite St. destruct wt; try (rewrite andb_false_r; done); cbn [andb].
  destruct (wget (s2u "detail") qs) as [wd|] eqn:Hd.
  2:{ rewrite (clone_read_none _ _ _ _ _ Cb Hd) by keys. rewrite andb_false_r. done. }
  destruct (clone_kind _ _ _ _ (clone_read _ _ _ _ _ _ Cb Hd f0 ltac:(lia))) as (Td & _ & _).
  rewrite Td. apply negb_true_iff in Hne. rewrite Hne, andb_false_r. done.
Qed.

(** Extra (lines 228-263): a message whose data fails the envelope check
    is ignored: the handler completes without effects, without drawing a
    token and without touching the dedup cache. *)
Theorem onMessage_ignores_non_envelopes (jp : jsstr -> option wval) src w c :
  wf c -> not_envelope w = true ->
  wp (onMessage jp src w) (fun r c' => r = Ok tt /\ cfg c' = cfg c /\ effects c' = effects c /\
       recentEvents c' = recentEvents c /\ draws c' = draws c /\ clock c' = clock c) c.
Proof.
  intros Hwf Hne. unfold onMessage. wps. wps. apply wp_if; intros Hs.
  { apply wp_ret. done. }
  wps. apply wp_receive. intros v h n Hm. cbv beta iota.
  pose proof (envelope_check_fails _ _ _ _ _ _ Hwf Hm Hne) as E. cbv zeta in E.
  wps. { destruct (truthy v); [apply wp_get|apply wp_ret]; cbv beta iota; wps; wps; wps; wps;
    cbn [mem set_mem]; rewrite E; apply wp_ret; done. }
Qed.

Lemma onMessage_ignores_non_envelopes_witness :
  let w := WObj [(s2u "_broadcast", WObj [(s2u "type", WNum 1); (s2u "detail", WStr (s2u "x"))])] in
  let c := demo_ctx root_win [] in
  wf c /\ not_envelope w = true /\
  wp (onMessage (fun _ => None) 5 w) (fun r c' => r = Ok tt /\ cfg c' = cfg c /\ effects c' = effects c /\
       recentEvents c' = recentEvents c /\ draws c' = draws c /\ clock c' = clock c) c.
Proof.
  cbv zeta. split; [apply demo_wf|]. split; [vm_compute; reflexivity|].
  apply (onMessage_ignores_non_envelopes (fun _ => None) 5
           (WObj [(s2u "_broadcast", WObj [(s2u "type", WNum 1); (s2u "detail", WStr (s2u "x"))])])
           (demo_ctx root_win [])).
  - apply demo_wf.
  - vm_compute. reflexivity.
Defined.

Lemma strict_eq_clone f h x w o : clone f h x = Some w ->
  strict_eq x (VStr o) = match w with WStr s => bool_decide (s = o) | _ => false end.
Proof.
  intros C. unfold strict_eq. destruct w as [| | | |s| |];
    try (destruct (clone_kind _ _ _ _ C) as (_ & S & _); destruct x; try done;
         rewrite bool_decide_eq_false_2; congruence).
  rewrite (clone_str_inv _ _ _ _ C).
  apply bool_decide_ext. split; congruence.
Qed.

(** Extra (lines 48, 58, 66-68, 254-260): at a receiving window, for an
    envelope whose detail is an object (and which carries no [target] key,
    as no envelope built by [broadcastEvent] does), the handler dispatches
    the event once if the hop is not suppressed and the received
    [_targetId] is falsy or equal to the receiver's [originId], and not at
    all otherwise. *)
Theorem onMessage_hop_fires_iff (jp : jsstr -> option wval) src ps qs ty dps c :
  wf c -> src <> self (cfg c) ->
  wget (s2u "_broadcast") ps = Some (WObj qs) ->
  wget (s2u "type") qs = Some (WStr ty) ->
  wget (s2u "detail") qs = Some (WObj dps) ->
  wget (s2u "target") qs = None ->
  wp (onMessage jp src (WObj ps)) (fun r c' => exists es,
    effects c' = effects c ++ es /\
    (draws c' = draws c \/ draws c' = S (draws c)) /\
    dispatches es = (if Nat.eqb (draws c') (S (draws c)) && hop_fires (originId (cfg c)) dps
                     then 1 else 0)%nat) c.
Proof.
  intros Hwf Hsrc Hb Hty Hdet Htg.
  destruct (onMessage_plain jp src ps qs ty dps c Hwf Hsrc Hb Hty Hdet)
    as (c1 & ld & lo & pre & f0 & E & Cf1 & W1 & Ef1 & Hpre & Cd & Hld & Hlo & Henc & Tg & Dr1).
  specialize (Tg Htg).
  unfold wp. rewrite E.
  pose proof (bcast_spec (VStr ty) (VRef ld) (VRef lo) c1 W1 Hld Hlo (or_intror eq_refl) (or_intror eq_refl)) as B.
  unfold wp in B. cbv zeta in B. rewrite Tg in B.
  assert (Hf : (negb (truthy (js_or (get_prop (mem c1) (VRef ld) (s2u "_targetId")) VUndef)) ||
                strict_eq (js_or (get_prop (mem c1) (VRef ld) (s2u "_targetId")) VUndef) (VStr (originId (cfg c1))))
               = hop_fires (originId (cfg c)) dps).
  { rewrite Cf1. unfold hop_fires, js_or.
    destruct (wget (s2u "_targetId") dps) as [wt|] eqn:Ht.
    - pose proof (clone_read _ _ _ _ _ _ Cd Ht f0 ltac:(lia)) as Ct.
      destruct (clone_kind _ _ _ _ Ct) as (Tt & _ & _). rewrite Tt.
      destruct (wtruthy wt) eqn:Hw; cbn [negb orb]; rewrite ?Tt; cbn [negb orb].
      + apply (strict_eq_clone _ _ _ _ _ Ct).
      + done.
    - rewrite (clone_read_none _ _ _ _ _ Cd Ht) by keys. done. }
  rewrite Hf in B.
  destruct B as (ld' & ei & es & _ & _ & _ & Ef2 & _ & _ & _ & _ & _ & _ & Hout).
  exists (pre ++ es). split; [rewrite Ef2, Ef1, app_assoc; done|].
  assert (Dp : dispatches pre = 0%nat) by (destruct Hpre as [->|[a ->]]; done).
  rewrite dispatches_app, Dp, <- Dr1. cbn [Nat.add].
  destruct Hout as [(_ & Dr & ->)|[(_ & Dr & ->)|(Dr & rest & -> & Hrest)]].
  - rewrite Dr, eqb_S_false. auto.
  - rewrite Dr, eqb_S_false. split; [auto|]. destruct (strict_eq _ _); done.
  - rewrite Dr, Nat.eqb_refl. split; [auto|]. cbn [andb].
    rewrite dispatches_app.
    assert (dispatches rest = 0%nat) as ->.
    { destruct Hrest as [(_ & _ & ->)|[(_ & v & s & ct & _ & -> & _)|(_ & e & _ & ->)]];
        [apply relay_effects_dispatches..|done]. }
    destruct (hop_fires _ _); done.
Qed.

Lemma onMessage_hop_fires_iff_witness :
  let dps := [(s2u "_targetId", WStr (s2u "mid"))] in
  let qs := [(s2u "type", WStr (s2u "ns:e")); (s2u "detail", WObj dps)] in
  let ps := [(s2u "_broadcast", WObj qs)] in
  let c := demo_ctx mid_win [] in
  wf c /\ 0%nat <> self (cfg c) /\ wget (s2u "target") qs = None /\
  wp (onMessage (fun _ => None) 0 (WObj ps)) (fun r c' => exists es,
    effects c' = effects c ++ es /\
    (draws c' = draws c \/ draws c' = S (draws c)) /\
    dispatches es = (if Nat.eqb (draws c') (S (draws c)) && hop_fires (originId (cfg c)) dps
                     then 1 else 0)%nat) c.
Proof.
  cbv zeta. split; [apply demo_wf|]. split; [vm_compute; congruence|]. split; [vm_compute; reflexivity|].
  apply (onMessage_hop_fires_iff (fun _ => None) 0
           [(s2u "_broadcast", WObj [(s2u "type", WStr (s2u "ns:e"));
                                     (s2u "detail", WObj [(s2u "_targetId", WStr (s2u "mid"))])])]
           [(s2u "type", WStr (s2u "ns:e")); (s2u "detail", WObj [(s2u "_targetId", WStr (s2u "mid"))])]
           (s2u "ns:e") [(s2u "_targetId", WStr (s2u "mid"))] (demo_ctx mid_win [])).
  - apply demo_wf.
  - vm_compute. congruence.
  - vm_compute. reflexivity.
  - vm_compute. reflexivity.
  - vm_compute. reflexivity.
  - vm_compute. reflexivity.
Defined.

(** Extra (lines 176-183): [stringHash] writes the unsigned 32-bit FNV
    hash in base 36: the digits read back as that number, they are all in
    [0-9a-z], there are 1 to 7 of them, so no [':'] appears and the result
    is never a member name of [Object.prototype]. *)
Theorem stringHash_base36 input :
  let n := to_uint32 (fold_left hash_step input fnv_offset) in
  of_base36 (stringHash input) = n /\
  forallb is_digit36 (stringHash input) = true /\
  (1 <= length (stringHash input) <= 7)%nat /\
  ~ In 58 (stringHash input) /\ in_object_proto (stringHash input) = false.
Proof. exact (stringHash_shape input). Qed.

(** ** The dedup cache of [alreadyBroadcast] *)

Lemma purge_lookup now r k t :
  purge now r !! k = Some t <-> r !! k = Some t /\ now - expiry <= t.
Proof.
  unfold purge. rewrite map_lookup_filter_Some. cbn. split; intros [H1 H2]; split; auto; lia.
Qed.

Lemma purge_lookup_None now r k t :
  r !! k = Some t -> t < now - expiry -> purge now r !! k = None.
Proof.
  intros Hr Ht. unfold purge. apply map_lookup_filter_None. right. intros t' Ht'.
  rewrite Hr in Ht'. injection Ht' as <-. cbn. lia.
Qed.

Lemma cache_put_lookup tok now r k t :
  cache_put tok now r !! k = Some t -> r !! k = Some t \/ (t = now /\ k = tok).
Proof.
  unfold cache_put. case_bool_decide; [auto|].
  destruct (decide (k = tok)) as [->|Hne].
  - rewrite lookup_insert_eq. intros [= <-]. auto.
  - rewrite lookup_insert_ne by done. auto.
Qed.

Lemma stringHash_not_proto_key input : stringHash input <> s2u "__proto__".
Proof.
  intros E. destruct (stringHash_shape input) as (_ & D & _). rewrite E in D. vm_compute in D. done.
Qed.

(** Extra (lines 99-129): after [alreadyBroadcast], whatever its outcome,
    every entry of the dedup cache is at most 30 s older than the current
    time, and it is an entry of the cache before the call or the new token
    recorded at the current time. *)
Theorem alreadyBroadcast_cache_fresh ty v c k t :
  recentEvents (snd (alreadyBroadcast ty v c)) !! k = Some t ->
  clock c - expiry <= t /\
  (recentEvents c !! k = Some t \/ (t = clock c /\ k = token (cfg c) ty (draws c))).
Proof.
  unfold alreadyBroadcast. cbv zeta.
  destruct v as [| | | | |l]; cbn [snd recentEvents set_recent]; try (intros H; apply purge_lookup in H; tauto).
  cbn [mem set_recent].
  destruct (mem c !! l) as [[ps [ids|]]|]; cbn [snd recentEvents set_recent];
    try (intros H; apply purge_lookup in H; tauto).
  destruct (existsb _ ids); cbn [snd recentEvents set_recent set_mem set_draws];
    [intros H; apply purge_lookup in H; tauto|].
  intros H. apply cache_put_lookup in H as [H|[-> ->]].
  - apply purge_lookup in H. tauto.
  - unfold expiry. split; [lia|auto].
Qed.

(** Extra (lines 99-129, 176-183): once a broadcast has recorded a
    [stringHash] token, a later check whose eventIds carry that token is
    suppressed while the clock is at most 30 s past the recording (the
    cache entry of the token kept as it was); a check carrying only that
    token proceeds once the clock is further than 30 s past. *)
Theorem alreadyBroadcast_echo_window ty l ps ids input c ty2 l2 ps2 ids2 c2 :
  mem c !! l = Some (mkobj ps (Some ids)) ->
  token (cfg c) ty (draws c) = stringHash input ->
  fst (alreadyBroadcast ty (VRef l) c) = Ok false ->
  recentEvents c2 !! stringHash input = recentEvents (snd (alreadyBroadcast ty (VRef l) c)) !! stringHash input ->
  mem c2 !! l2 = Some (mkobj ps2 (Some ids2)) ->
  In (VStr (stringHash input)) ids2 ->
  (clock c2 <= clock c + expiry -> fst (alreadyBroadcast ty2 (VRef l2) c2) = Ok true) /\
  (ids2 = [VStr (stringHash input)] -> clock c + expiry < clock c2 ->
     fst (alreadyBroadcast ty2 (VRef l2) c2) = Ok false).
Proof.
  intros Hl Htok Hres Hr2 Hl2 Hin.
  assert (Hput : recentEvents (snd (alreadyBroadcast ty (VRef l) c)) !! stringHash input = Some (clock c)).
  { revert Hres. unfold alreadyBroadcast. cbv zeta. cbn [mem set_recent]. rewrite Hl.
    destruct (existsb _ ids); cbn; [discriminate|]. intros _.
    rewrite Htok. unfold cache_put. rewrite bool_decide_eq_false_2 by apply stringHash_not_proto_key.
    rewrite lookup_insert_eq. done. }
  rewrite Hput in Hr2. clear Hres Hput.
  unfold alreadyBroadcast. cbv zeta. cbn [mem set_recent]. rewrite Hl2. split.
  - intros Hc. cbn [fst].
    assert (E : existsb (fun id => cache_has (purge (clock c2) (recentEvents c2)) (str_of (mem c2) id)) ids2 = true).
    { apply existsb_exists. exists (VStr (stringHash input)). split; [done|].
      cbn [str_of]. unfold cache_has.
      assert (Hk : clock c2 - expiry <= clock c) by (unfold expiry in *; lia).
      change (str_of (mem c2) (VStr (stringHash input))) with (stringHash input). rewrite (proj2 (purge_lookup (clock c2) (recentEvents c2) (stringHash input) (clock c)) (conj Hr2 Hk)). done. }
    rewrite E. done.
  - intros -> Hc. cbn [existsb orb]. change (str_of (mem c2) (VStr (stringHash input))) with (stringHash input). unfold cache_has.
    rewrite (purge_lookup_None _ _ _ _ Hr2) by (unfold expiry in *; lia).
    destruct (stringHash_shape input) as (_ & _ & _ & _ & ->). done.
Qed.

Lemma alreadyBroadcast_cache_fresh_witness :
  let c := demo_ctx root_win [mkobj [] (Some [])] in
  recentEvents (snd (alreadyBroadcast (s2u "ns:e") (VRef 0) c)) !! s2u "t0" = Some 0 /\
  clock c - expiry <= 0 /\
  (recentEvents c !! s2u "t0" = Some 0 \/ (0 = clock c /\ s2u "t0" = token (cfg c) (s2u "ns:e") (draws c))).
Proof.
  cbv zeta.
  assert (H : recentEvents (snd (alreadyBroadcast (s2u "ns:e") (VRef 0)
                (demo_ctx root_win [mkobj [] (Some [])]))) !! s2u "t0" = Some 0) by (vm_compute; reflexivity).
  split; [exact H|].
  exact (alreadyBroadcast_cache_fresh (s2u "ns:e") (VRef 0) (demo_ctx root_win [mkobj [] (Some [])])
           (s2u "t0") 0 H).
Defined.

Lemma alreadyBroadcast_echo_window_witness :
  let c := demo_ctx hash_win [mkobj [] (Some [])] in
  let input := s2u "https://example.test/:ns:e:0" in
  let c2 := mkctx hash_win (heap_from 0 [mkobj [] (Some [VStr (stringHash input)])]) 1
              (recentEvents (snd (alreadyBroadcast (s2u "ns:e") (VRef 0) c))) 20000 1 [] in
  mem c !! 0%nat = Some (mkobj [] (Some [])) /\
  token (cfg c) (s2u "ns:e") (draws c) = stringHash input /\
  fst (alreadyBroadcast (s2u "ns:e") (VRef 0) c) = Ok false /\
  mem c2 !! 0%nat = Some (mkobj [] (Some [VStr (stringHash input)])) /\
  (clock c2 <= clock c + expiry -> fst (alreadyBroadcast (s2u "ns:e") (VRef 0) c2) = Ok true) /\
  ([VStr (stringHash input)] = [VStr (stringHash input)] -> clock c + expiry < clock c2 ->
     fst (alreadyBroadcast (s2u "ns:e") (VRef 0) c2) = Ok false).
Proof.
  cbv zeta.
  assert (H1 : mem (demo_ctx hash_win [mkobj [] (Some [])]) !! 0%nat = Some (mkobj [] (Some [])))
    by reflexivity.
  assert (H2 : token (cfg (demo_ctx hash_win [mkobj [] (Some [])])) (s2u "ns:e")
                 (draws (demo_ctx hash_win [mkobj [] (Some [])])) =
               stringHash (s2u "https://example.test/:ns:e:0")) by (vm_compute; reflexivity).
  assert (H3 : fst (alreadyBroadcast (s2u "ns:e") (VRef 0) (demo_ctx hash_win [mkobj [] (Some [])])) = Ok false)
    by (vm_compute; reflexivity).
  assert (H4 : mem (mkctx hash_win (heap_from 0 [mkobj [] (Some [VStr (stringHash (s2u "https://example.test/:ns:e:0"))])]) 1
              (recentEvents (snd (alreadyBroadcast (s2u "ns:e") (VRef 0) (demo_ctx hash_win [mkobj [] (Some [])]))))
              20000 1 []) !! 0%nat =
               Some (mkobj [] (Some [VStr (stringHash (s2u "https://example.test/:ns:e:0"))]))) by reflexivity.
  split; [exact H1|]. split; [exact H2|]. split; [exact H3|]. split; [exact H4|].
  exact (alreadyBroadcast_echo_window (s2u "ns:e") 0%nat [] [] (s2u "https://example.test/:ns:e:0")
           (demo_ctx hash_win [mkobj [] (Some [])]) (s2u "ns:e") 0%nat []
           [VStr (stringHash (s2u "https://example.test/:ns:e:0"))] _ H1 H2 H3 eq_refl H4 (or_introl eq_refl)).
Defined.























